(** * jinja-cli: the pipeline of [jinja_cli/__main__.py]

    A shallow embedding of the module [jinja_cli.__main__]: the format
    loaders, [load_data] (format detection, dispatch, top-level wrapping and
    the merge of [-D] definitions) and [main] (template loading, rendering,
    output), over an explicit world (standard streams, files, an event
    trace) and an error monad for Python exceptions. *)

From Stdlib Require Import String Ascii List Bool Arith Lia.
From stdpp Require Import gmap strings list fin_maps.

Local Open Scope string_scope.

Set Warnings "-register-all".

(** ** Python values *)

(** What the loaders hand to the template: [None], booleans, numbers,
    strings, lists and dicts keyed by strings.  Python compares dicts
    without regard to insertion order, as [gmap] equality does. *)
Inductive value : Type :=
| VNone
| VBool (b : bool)
| VInt (z : Z)
| VFloat (literal : string)
| VStr (s : string)
| VList (items : list value)
| VDict (entries : gmap string value).

(** [isinstance(v, collections.Mapping)] once both names are resolved. *)
Definition is_mapping (v : value) : bool :=
  match v with
  | VDict _ => true
  | _ => false
  end.

(** ** Exceptions *)

Inductive exn : Type :=
| NameError (name : string)        (* name '...' is not defined *)
| Exception (msg : string)         (* raise Exception(msg) *)
| KeyError (key : string)
| OSError (path : string)          (* open() failed *)
| LibraryError (origin : string) (cause : string).
                                   (* raised inside an imported library *)

Inductive result (A : Type) : Type :=
| Ok (a : A)
| Raise (e : exn).
Arguments Ok {A} a.
Arguments Raise {A} e.

(** The two exceptions [load_data] raises itself (lines 177 and 197); the
    specification files both under the name ConfigurationError. *)
Definition ConfigurationError (e : exn) : Prop :=
  e = Exception "no data format;" \/
  exists fmt : string, e = Exception ("invalid data format: " ++ fmt ++ ";").

(** ** The world the program runs in *)

(** An open text stream for reading: [sys.stdin] or a file opened ['rt']. *)
Inductive stream : Type :=
| Stdin
| FileIn (path : string).

(** Where the rendered text goes: [sys.stdout] or a file opened ['wt']. *)
Inductive sink : Type :=
| Stdout
| FileOut (path : string).

Inductive event : Type :=
| EReadAll (src : stream)            (* the whole stream was consumed *)
| EOpenRead (path : string)
| ECloseIn (src : stream)
| ELogInfo (msg : string)            (* logging.info *)
| ERendered (text : string)          (* template.render returned [text] *)
| EOpenWrite (path : string)         (* open(path, 'wt'): create or truncate *)
| EWrite (dst : sink) (text : string)
| ECloseOut (dst : sink).

Record world : Type := mkWorld {
  w_stdin : string;                  (* what is still unread on sys.stdin *)
  w_files : gmap string string;      (* readable files and their text *)
  w_locked : list string;            (* paths open(_, 'wt') fails on *)
  w_stdout : string;                 (* what was written to sys.stdout *)
  w_trace : list event               (* oldest event first *)
}.

Definition emit (e : event) (w : world) : world :=
  mkWorld (w_stdin w) (w_files w) (w_locked w) (w_stdout w)
    (w_trace w ++ [e])%list.

(** ** Exceptions and state: the monad of the embedding *)

Definition M (A : Type) : Type := world -> result A * world.

Definition ret {A} (a : A) : M A := fun w => (Ok a, w).
Definition raise {A} (e : exn) : M A := fun w => (Raise e, w).
Definition bind {A B} (m : M A) (k : A -> M B) : M B :=
  fun w => match m w with
           | (Ok a, w') => k a w'
           | (Raise e, w') => (Raise e, w')
           end.
Definition lift {A} (r : result A) : M A := fun w => (r, w).
Definition log (e : event) : M unit := fun w => (Ok tt, emit e w).

Declare Scope py_scope.
Delimit Scope py_scope with py.
Notation "x <- m ;; k" := (bind m (fun x => k))
  (at level 100, m at next level, right associativity) : py_scope.
Notation "m ;;; k" := (bind m (fun _ => k))
  (at level 100, right associativity) : py_scope.
Local Open Scope py_scope.

(** [try: body finally: cleanup]: the cleanup runs on both exits; the
    body's outcome stands unless the cleanup itself raises. *)
Definition try_finally {A} (body : M A) (cleanup : M unit) : M A :=
  fun w => match body w with
           | (r, w1) => match cleanup w1 with
                        | (Ok _, w2) => (r, w2)
                        | (Raise e, w2) => (Raise e, w2)
                        end
           end.

(** Bind inside the pure error type, for code that touches no state. *)
Definition rbind {A B} (r : result A) (k : A -> result B) : result B :=
  match r with
  | Ok a => k a
  | Raise e => Raise e
  end.

Fixpoint rmapM {A B} (f : A -> result B) (l : list A) : result (list B) :=
  match l with
  | [] => Ok []
  | a :: l' =>
      rbind (f a) (fun b => rbind (rmapM f l') (fun bs => Ok (b :: bs)))
  end.

(** *** Streams *)

(** [open(fname, 'rt')] *)
Definition open_rt (fname : string) : M stream :=
  fun w => match w_files w !! fname with
           | Some _ => (Ok (FileIn fname), emit (EOpenRead fname) w)
           | None => (Raise (OSError fname), w)
           end.

(** [fin.read()] to the end of the stream. *)
Definition read_all (fin : stream) : M string :=
  fun w => match fin with
           | Stdin =>
               (Ok (w_stdin w),
                emit (EReadAll Stdin)
                  (mkWorld "" (w_files w) (w_locked w) (w_stdout w)
                     (w_trace w)))
           | FileIn p =>
               (Ok (default "" (w_files w !! p)), emit (EReadAll fin) w)
           end.

(** [fin.close()] *)
Definition close_in (fin : stream) : M unit := log (ECloseIn fin).

(** [open(path, 'wt')] *)
Definition open_wt (path : string) : M sink :=
  fun w => if existsb (String.eqb path) (w_locked w)
           then (Raise (OSError path), w)
           else (Ok (FileOut path),
                 emit (EOpenWrite path)
                   (mkWorld (w_stdin w) (<[path := ""]> (w_files w))
                      (w_locked w) (w_stdout w) (w_trace w))).

(** [fout.write(text)] *)
Definition write (fout : sink) (text : string) : M unit :=
  fun w => match fout with
           | Stdout =>
               (Ok tt,
                emit (EWrite Stdout text)
                  (mkWorld (w_stdin w) (w_files w) (w_locked w)
                     (w_stdout w ++ text) (w_trace w)))
           | FileOut p =>
               (Ok tt,
                emit (EWrite fout text)
                  (mkWorld (w_stdin w)
                     (<[p := default "" (w_files w !! p) ++ text]> (w_files w))
                     (w_locked w) (w_stdout w) (w_trace w)))
           end.

(** [fout.close()] *)
Definition close_out (fout : sink) : M unit := log (ECloseOut fout).

(** ** String methods the module calls *)

(** [s.endswith(suffix)]: some tail of [s] is [suffix]. *)
Fixpoint endswith (s suffix : string) : bool :=
  if String.eqb s suffix then true
  else match s with
       | EmptyString => false
       | String _ s' => endswith s' suffix
       end.

(** [s.startswith(p)] *)
Definition startswith (s p : string) : bool := String.prefix p s.

(** [s.partition('.')[-1]]: what follows the first dot, [''] without one. *)
Fixpoint after_first_dot (s : string) : string :=
  match s with
  | EmptyString => ""
  | String c s' => if Ascii.eqb c "." then s' else after_first_dot s'
  end.

(** ['%' in s] *)
Fixpoint has_percent (s : string) : bool :=
  match s with
  | EmptyString => false
  | String c s' => Ascii.eqb c "%" || has_percent s'
  end.

(** ** Dicts *)

(** [d.update(items)], [dict(d, **items)] and a dict comprehension all
    store the items one after the other, a later one replacing an earlier
    one with the same key. *)
Definition dict_update {A} (d : gmap string A) (items : list (string * A))
  : gmap string A :=
  foldl (fun m kv => <[kv.1 := kv.2]> m) d items.

(** First binding of [k] in a dict kept in insertion order. *)
Fixpoint assoc {A} (k : string) (l : list (string * A)) : option A :=
  match l with
  | [] => None
  | (k', v) :: l' => if String.eqb k k' then Some v else assoc k l'
  end.

(** ** Imported libraries *)

(** The state of a [configparser.ConfigParser] after [read_file]: the
    DEFAULT section and the named sections, each in file order, with the
    raw (uninterpolated) values. *)
Record ConfigParser : Type := mkConfigParser {
  cp_defaults : list (string * string);
  cp_sections : list (string * list (string * string))
}.

(** What the module takes from the libraries it imports.  Streams are read
    to their end and handed over as text. *)
Record externals : Type := mkExternals {
  (* configparser *)
  configparser_read_file : string -> result ConfigParser;
  configparser_interpolate_some :
    list (string * string) -> string -> result string;
  (* json.load, xmltodict.parse, yaml.safe_load *)
  json_load : string -> result value;
  xmltodict_parse : string -> result value;
  yaml_safe_load : string -> result value;
  (* list(csv.DictReader(..)) / list(csv.reader(..)) under a dialect name *)
  csv_rows : string -> bool -> string -> result value;
  (* os.path *)
  dirname : string -> string;
  basename : string -> string;
  (* jinja2 *)
  template : Type;
  get_template_dict : string -> result template;
  get_template_fs : gmap string string -> string -> string -> result template;
  render : template -> gmap string string -> gmap string value -> result string
}.

(** ** Module namespace *)

(** The names bound at module level when [main] runs: the imports of lines
    7-21, [prog], and the functions the module defines.  Neither [csv] nor
    [collections] is imported; [dialect_args] and [dialect_options] are
    assigned nowhere. *)
Definition module_globals : list string :=
  [ "DictLoader"; "Environment"; "FileSystemLoader"; "Template";
    "basename"; "dirname"; "argparse"; "argparse_ext"; "configparser";
    "json"; "logging"; "os"; "sys"; "xmltodict"; "yaml"; "prog";
    "load_data_ini"; "load_data_json"; "load_data_xml"; "load_data_yaml";
    "load_data_dsv"; "load_data"; "parse_args"; "main" ].

(** The namespace the source would have with the two missing imports and
    the two missing assignments supplied. *)
Definition repaired_globals : list string :=
  "csv" :: "collections" :: "dialect_args" :: "dialect_options"
  :: module_globals.

Definition bound (G : list string) (name : string) : bool :=
  existsb (String.eqb name) G.

(** ** The module's functions *)

Section Program.

Context (E : externals).
(** The module-level namespace in force. *)
Variable G : list string.

(** Reading a name that is neither a local nor a builtin. *)
Definition global (name : string) : M unit :=
  if bound G name then ret tt else raise (NameError name).

(** *** [configparser], as line 46 uses it *)

(** [cp.sections()] *)
Definition cp_section_names (cp : ConfigParser) : list string :=
  (cp_sections cp).*1.

(** [cp.options(s)]: the section's own keys, then the default keys it
    does not define itself. *)
Definition cp_options (cp : ConfigParser) (own : list (string * string))
  : list string :=
  (own.*1 ++ filter (fun k => assoc k own = None) (cp_defaults cp).*1)%list.

(** [BasicInterpolation.before_get]: a value without ['%'] is returned as
    it is. *)
Definition before_get (d : list (string * string)) (v : string)
  : result string :=
  if has_percent v then configparser_interpolate_some E d v else Ok v.

(** [cp.get(s, k)]: the section's own value, else the default, then
    interpolated. *)
Definition cp_get (cp : ConfigParser) (own : list (string * string))
    (k : string) : result string :=
  let d := (own ++ cp_defaults cp)%list in
  match assoc k d with
  | Some v => before_get d v
  | None => Raise (KeyError k)
  end.

(** [**cp[s]]: the keyword arguments the section proxy unpacks to. *)
Definition cp_items (cp : ConfigParser) (s : string)
  : result (list (string * string)) :=
  match assoc s (cp_sections cp) with
  | None => Raise (KeyError s)
  | Some own =>
      rmapM (fun k => rbind (cp_get cp own k) (fun v => Ok (k, v)))
        (cp_options cp own)
  end.

(** [dict(cp.defaults(), **cp[s])] *)
Definition ini_section (cp : ConfigParser) (s : string)
  : result (gmap string string) :=
  rbind (cp_items cp s)
    (fun kw => Ok (dict_update (dict_update ∅ (cp_defaults cp)) kw)).

(** [{ s: dict(cp.defaults(), **cp[s]) for s in cp.sections() }] *)
Definition ini_dict (cp : ConfigParser) : result value :=
  rbind
    (rmapM (fun s => rbind (ini_section cp s)
                       (fun d => Ok (s, VDict (VStr <$> d))))
       (cp_section_names cp))
    (fun items => Ok (VDict (dict_update ∅ items))).

(** *** The loaders (lines 28-129) *)

Definition load_data_ini (fin : stream) : M value :=
  global "configparser" ;;;
  text <- read_all fin ;;
  cp <- lift (configparser_read_file E text) ;;
  lift (ini_dict cp).

Definition load_data_json (fin : stream) : M value :=
  global "json" ;;;
  text <- read_all fin ;;
  lift (json_load E text).

Definition load_data_xml (fin : stream) : M value :=
  global "xmltodict" ;;;
  text <- read_all fin ;;
  lift (xmltodict_parse E text).

Definition load_data_yaml (fin : stream) : M value :=
  global "yaml" ;;;
  text <- read_all fin ;;
  lift (yaml_safe_load E text).

(** Lines 119-129.  The body reads [csv] (line 120), [csv] and
    [dialect_args] (lines 124 and 125), [csv] (line 127) and
    [dialect_options] (line 128) before a reader is built. *)
Definition load_data_dsv (fin : stream) (dialect : string)
    (has_headers : bool) : M value :=
  global "csv" ;;;
  global "csv" ;;; global "dialect_args" ;;;
  global "csv" ;;; global "dialect_args" ;;;
  global "csv" ;;;
  global "dialect_options" ;;;
  text <- read_all fin ;;
  lift (csv_rows E dialect has_headers text).

(** *** [load_data] (lines 132-217) *)

(** Lines 163-177: the format named on the command line, else the one the
    file name's suffix stands for. *)
Definition detect_format (fmt : option string) (fname : string)
  : result string :=
  match fmt with
  | Some f => Ok f
  | None =>
      if endswith fname ".ini" then Ok "ini"
      else if endswith fname ".json" then Ok "json"
      else if endswith fname ".xml" then Ok "xml"
      else if endswith fname ".yaml" then Ok "yaml"
      else if endswith fname ".tsv" then Ok "tsv"
      else if endswith fname ".csv" then Ok "csv"
      else Raise (Exception "no data format;")
  end.

(** Lines 180-197: the loader for a format name. *)
Definition dispatch (fmt : string) (fin : stream) : M value :=
  if String.eqb fmt "ini" then global "load_data_ini" ;;; load_data_ini fin
  else if String.eqb fmt "json" then
    global "load_data_json" ;;; load_data_json fin
  else if String.eqb fmt "xml" then
    global "load_data_xml" ;;; load_data_xml fin
  else if String.eqb fmt "yaml" then
    global "load_data_yaml" ;;; load_data_yaml fin
  else if String.eqb fmt "tsv" then
    global "load_data_dsv" ;;; load_data_dsv fin "tsv" true
  else if String.eqb fmt "csv" then
    global "load_data_dsv" ;;; load_data_dsv fin "csv" true
  else if startswith fmt "csv." then
    global "load_data_dsv" ;;; load_data_dsv fin (after_first_dot fmt) true
  else raise (Exception ("invalid data format: " ++ fmt ++ ";")).

(** Lines 161-200: the body of the [try] statement. *)
Definition detect_and_load (fname : string) (fmt : option string)
    (fin : stream) : M value :=
  fmt' <- lift (detect_format fmt fname) ;;
  dispatch fmt' fin.

(** Lines 152-200: the data before it is made a dict. *)
Definition read_data (fname fmt : option string) : M value :=
  match fname with
  | None => ret (VDict ∅)
  | Some fname =>
      fin <- (if String.eqb fname "-"
              then global "sys" ;;; ret Stdin
              else open_rt fname) ;;
      try_finally (detect_and_load fname fmt fin) (close_in fin)
  end.

(** Lines 207-211: a top-level value that is not a mapping is put under
    the key ['data'].  The test reads the global [collections]; the
    attribute [Mapping] is taken to exist once that name resolves. *)
Definition normalize (data : value) : M (gmap string value) :=
  global "collections" ;;;
  match data with
  | VDict d => ret d
  | _ =>
      global "logging" ;;;
      log (ELogInfo "input doesn't provide top-level keys; using 'data'") ;;;
      ret {[ "data" := data ]}
  end.

(** Lines 213-215: [data.update(defines)] unless [defines] is [None];
    each define is a [key, value] pair of strings. *)
Definition merge (data : gmap string value)
    (defines : option (list (string * string))) : gmap string value :=
  match defines with
  | None => data
  | Some ds => dict_update data (map (fun kv => (kv.1, VStr kv.2)) ds)
  end.

Definition load_data (fname fmt : option string)
    (defines : option (list (string * string))) : M (gmap string value) :=
  data <- read_data fname fmt ;;
  data <- normalize data ;;
  ret (merge data defines).

(** *** [main] (lines 288-325) *)

(** The namespace [parse_args] returns. *)
Record args : Type := mkArgs {
  a_define : option (list (string * string));
  a_data : option string;
  a_format : option string;
  a_output : option string;
  a_template : option string
}.

(** [args.x is None or args.x == '-'] *)
Definition none_or_dash (x : option string) : bool :=
  match x with
  | None => true
  | Some s => String.eqb s "-"
  end.

(** Lines 298-309 *)
Definition load_template (t : option string) : M (template E) :=
  if none_or_dash t then
    global "Environment" ;;; global "DictLoader" ;;; global "sys" ;;;
    src <- read_all Stdin ;;
    lift (get_template_dict E src)
  else
    let path := default "" t in
    global "Environment" ;;; global "FileSystemLoader" ;;;
    global "dirname" ;;; global "basename" ;;;
    fun w => (get_template_fs E (w_files w) (dirname E path)
                (basename E path), w).

(** Lines 318-321 *)
Definition open_output (o : option string) : M sink :=
  if none_or_dash o then global "sys" ;;; ret Stdout
  else open_wt (default "" o).

(** Lines 294-315: everything up to and including [template.render]. *)
Definition render_template (a : args) : M string :=
  tpl <- load_template (a_template a) ;;
  global "load_data" ;;;
  data <- load_data (a_data a) (a_format a) (a_define a) ;;
  fun w => (render E tpl (w_files w) data, w).

(** Lines 317-325: the rendered text goes out in one [write]. *)
Definition write_output (o : option string) (rendered : string) : M unit :=
  fout <- open_output o ;;
  try_finally (write fout rendered) (close_out fout).

(** The trace entry between the two stages marks the return of
    [template.render]; it is bookkeeping of the model, not a statement of
    the source. *)
Definition main (a : args) : M unit :=
  rendered <- render_template a ;;
  log (ERendered rendered) ;;;
  write_output (a_output a) rendered.

End Program.

Arguments global G name : simpl never.

(** ** Vocabulary of the specification *)

(** The resolver's table of suffixes, in the order lines 164-175 test them. *)
Definition suffix_table : list (string * string) :=
  [ (".ini", "ini"); (".json", "json"); (".xml", "xml");
    (".yaml", "yaml"); (".tsv", "tsv"); (".csv", "csv") ].

(** First entry of a table whose suffix the file name ends with. *)
Fixpoint first_match (table : list (string * string)) (fname : string)
  : option string :=
  match table with
  | [] => None
  | (suffix, fmt) :: rest =>
      if endswith fname suffix then Some fmt else first_match rest fname
  end.

(** A format name line 180-195 has a loader for: one of the six names, or
    [csv.<dialect>]. *)
Definition recognized_format (fmt : string) : bool :=
  existsb (String.eqb fmt) (suffix_table.*2) || startswith fmt "csv.".

(** Events that touch the output destination. *)
Definition is_output_event (e : event) : bool :=
  match e with
  | EOpenWrite _ | EWrite _ _ | ECloseOut _ => true
  | _ => false
  end.

(** Every event on the output destination comes after a completed
    rendering. *)
Definition writes_follow_render (tr : list event) : Prop :=
  forall (i : nat) (e : event),
    tr !! i = Some e -> is_output_event e = true ->
    exists (j : nat) (text : string), j < i /\ tr !! j = Some (ERendered text).

(** A computation that leaves the output destinations alone: files and
    standard output keep their contents and no output event is logged. *)
Definition quiet {A} (m : M A) : Prop :=
  forall w : world,
    w_files (m w).2 = w_files w
    /\ w_stdout (m w).2 = w_stdout w
    /\ exists new : list event,
         w_trace (m w).2 = (w_trace w ++ new)%list
         /\ Forall (fun e => is_output_event e = false) new.

(** After the rendering, only its whole text is written, and nothing is
    rendered again. *)
Definition writes_only (text : string) (e : event) : Prop :=
  match e with
  | EWrite _ t => t = text
  | ERendered _ => False
  | _ => True
  end.

(** No value of the parsed file asks for interpolation. *)
Definition cp_plain (cp : ConfigParser) : bool :=
  forallb (fun kv => negb (has_percent kv.2)) (cp_defaults cp)
  && forallb (fun s => forallb (fun kv => negb (has_percent kv.2)) s.2)
       (cp_sections cp).

(** The section's own value for [k], else the default. *)
Definition overlay (cp : ConfigParser) (own : list (string * string))
    (k : string) : option string :=
  match assoc k own with
  | Some v => Some v
  | None => assoc k (cp_defaults cp)
  end.

(** The format names lines 188-195 hand to the tabular loader. *)
Definition tabular_format (fmt : string) : bool :=
  String.eqb fmt "tsv" || String.eqb fmt "csv" || startswith fmt "csv.".

(** The same libraries, except that tables read without headers come from
    another reader. *)
Definition with_headerless_reader (E : externals)
    (alt : string -> string -> result value) : externals :=
  mkExternals
    (configparser_read_file E) (configparser_interpolate_some E)
    (json_load E) (xmltodict_parse E) (yaml_safe_load E)
    (fun dialect has_headers text =>
       if has_headers then csv_rows E dialect has_headers text
       else alt dialect text)
    (dirname E) (basename E)
    (template E) (get_template_dict E) (get_template_fs E) (render E).

(** Events that open or close an input stream. *)
Definition is_stream_event (e : event) : bool :=
  match e with
  | EOpenRead _ | ECloseIn _ => true
  | _ => false
  end.

(** A computation whose every run relates the world before to the world
    after by [I]. *)
Definition keeps (I : world -> world -> Prop) {A} (m : M A) : Prop :=
  forall w : world, I w (m w).2.

(** The trace grows by events that neither open nor close an input
    stream. *)
Definition no_stream_events (w w' : world) : Prop :=
  exists new : list event,
    w_trace w' = (w_trace w ++ new)%list
    /\ Forall (fun e => is_stream_event e = false) new.

(** Standard input is left unread. *)
Definition stdin_unread (w w' : world) : Prop := w_stdin w' = w_stdin w.

(** The text a parser finds on a stream. *)
Definition stream_text (fin : stream) (w : world) : string :=
  match fin with
  | Stdin => w_stdin w
  | FileIn p => default "" (w_files w !! p)
  end.

(** ** A small instance of the libraries, for concrete runs *)

Definition nl : string := String (ascii_of_nat 10) EmptyString.

Definition sample_ini : string :=
  "[DEFAULT]" ++ nl ++ "x=5" ++ nl ++ "[web]" ++ nl ++ "port=80" ++ nl.

Definition sample_cp : ConfigParser :=
  mkConfigParser [("x", "5")] [("web", [("port", "80")])].

Definition sample_externals : externals :=
  mkExternals
    (fun text => if String.eqb text sample_ini then Ok sample_cp
                 else Raise (LibraryError "configparser" "ParsingError"))
    (fun _ _ => Raise (LibraryError "configparser" "InterpolationSyntaxError"))
    (fun text => if String.eqb text "{}" then Ok (VDict ∅)
                 else if String.eqb text "[]" then Ok (VList [])
                 else Raise (LibraryError "json" "JSONDecodeError"))
    (fun _ => Raise (LibraryError "xmltodict" "ExpatError"))
    (fun text => if String.eqb text "" then Ok VNone
                 else Raise (LibraryError "yaml" "YAMLError"))
    (fun _ _ _ => Raise (LibraryError "csv" "Error"))
    (fun _ => "")
    (fun p => p)
    string
    (fun src => Ok src)
    (fun files _ base =>
       match files !! base with
       | Some src => Ok src
       | None => Raise (LibraryError "jinja2" "TemplateNotFound")
       end)
    (fun tpl _ ctx =>
       match ctx !! "name" with
       | Some (VStr s) => Ok (tpl ++ s)
       | _ => Raise (LibraryError "jinja2" "UndefinedError")
       end).

Definition sample_world : world :=
  mkWorld "Hello " {[ "conf.ini" := sample_ini; "d.json" := "{}" ]} [] "" [].

(** * Properties *)

(** ** Suffixes *)

Section Suffixes.

Lemma append_nil_l (s : string) : "" ++ s = s.
Proof. reflexivity. Qed.

Lemma append_cons (c : ascii) (p s : string) :
  String c p ++ s = String c (p ++ s).
Proof. reflexivity. Qed.

Lemma endswith_unfold (s suffix : string) :
  endswith s suffix =
  if String.eqb s suffix then true
  else match s with
       | EmptyString => false
       | String _ s' => endswith s' suffix
       end.
Proof. destruct s; reflexivity. Qed.

Lemma endswith_refl (s : string) : endswith s s = true.
Proof. rewrite endswith_unfold, String.eqb_refl. reflexivity. Qed.

Lemma endswith_app (p suffix : string) : endswith (p ++ suffix) suffix = true.
Proof.
  induction p as [|c p IH].
  - apply endswith_refl.
  - rewrite append_cons. cbn [endswith].
    rewrite IH. destruct (String.eqb _ _); reflexivity.
Qed.

(** [endswith] is exact: it holds of the strings that literally end in
    the suffix, character for character. *)
Lemma endswith_spec (s suffix : string) :
  endswith s suffix = true <-> exists p : string, s = p ++ suffix.
Proof.
  split.
  - induction s as [|c s IH]; cbn [endswith].
    + destruct (String.eqb_spec "" suffix) as [Heq|Hne]; intros H.
      * exists "". exact Heq.
      * discriminate H.
    + destruct (String.eqb_spec (String c s) suffix) as [Heq|Hne]; intros H.
      * exists "". exact Heq.
      * destruct (IH H) as [p Hp]. exists (String c p).
        rewrite append_cons. congruence.
  - intros [p ->]. apply endswith_app.
Qed.

Lemma app_tails_comparable (p q a b : string) :
  p ++ a = q ++ b -> endswith a b = true \/ endswith b a = true.
Proof.
  revert q. induction p as [|c p IH]; intros q H.
  - left. apply endswith_spec. exists q. exact H.
  - destruct q as [|c' q].
    + right. apply endswith_spec. exists (String c p). symmetry. exact H.
    + rewrite !append_cons in H. injection H as _ H. exact (IH q H).
Qed.

Lemma endswith_app_other (p a b : string) :
  endswith a b = false -> endswith b a = false ->
  endswith (p ++ a) b = false.
Proof.
  intros Hab Hba. destruct (endswith (p ++ a) b) eqn:H; [|reflexivity].
  apply endswith_spec in H as [q Hq].
  destruct (app_tails_comparable _ _ _ _ Hq); congruence.
Qed.

End Suffixes.

(** Settles [detect_format None (name ++ suffix)] for a suffix of the
    table: the earlier tests fail, the suffix's own test succeeds. *)
Ltac by_suffix :=
  intros; unfold detect_format;
  repeat (rewrite endswith_app_other by reflexivity);
  rewrite endswith_app; reflexivity.

Section Resolver.

Lemma detect_ini name : detect_format None (name ++ ".ini") = Ok "ini".
Proof. by_suffix. Qed.
Lemma detect_json name : detect_format None (name ++ ".json") = Ok "json".
Proof. by_suffix. Qed.
Lemma detect_xml name : detect_format None (name ++ ".xml") = Ok "xml".
Proof. by_suffix. Qed.
Lemma detect_yaml name : detect_format None (name ++ ".yaml") = Ok "yaml".
Proof. by_suffix. Qed.
Lemma detect_tsv name : detect_format None (name ++ ".tsv") = Ok "tsv".
Proof. by_suffix. Qed.
Lemma detect_csv name : detect_format None (name ++ ".csv") = Ok "csv".
Proof. by_suffix. Qed.

(** The chain of [elif]s is a first-match search of [suffix_table]. *)
Lemma detect_format_first_match (fname : string) :
  detect_format None fname =
  match first_match suffix_table fname with
  | Some fmt => Ok fmt
  | None => Raise (Exception "no data format;")
  end.
Proof.
  unfold detect_format, suffix_table; cbn [first_match].
  repeat (match goal with
          | |- context [endswith fname ?s] => destruct (endswith fname s)
          end; [reflexivity|]).
  reflexivity.
Qed.

Lemma no_data_format_is_configuration_error :
  ConfigurationError (Exception "no data format;").
Proof. left. reflexivity. Qed.

Lemma invalid_format_is_configuration_error (fmt : string) :
  ConfigurationError (Exception ("invalid data format: " ++ fmt ++ ";")).
Proof. right. exists fmt. reflexivity. Qed.

(** C4: without an explicit format, a file name ending in one of the six
    suffixes of the table resolves to that suffix's format; the
    resolution is the first match of the ordered table under exact,
    case-sensitive suffix comparison; and a name no entry matches fails
    with the resolver's "no data format" error, a ConfigurationError. *)
Theorem detect_format_by_suffix (name fname : string) :
  (detect_format None (name ++ ".ini") = Ok "ini"
   /\ detect_format None (name ++ ".json") = Ok "json"
   /\ detect_format None (name ++ ".xml") = Ok "xml"
   /\ detect_format None (name ++ ".yaml") = Ok "yaml"
   /\ detect_format None (name ++ ".tsv") = Ok "tsv"
   /\ detect_format None (name ++ ".csv") = Ok "csv")
  /\ match first_match suffix_table fname with
     | Some fmt => detect_format None fname = Ok fmt
     | None =>
         detect_format None fname = Raise (Exception "no data format;")
         /\ ConfigurationError (Exception "no data format;")
     end
  /\ detect_format None "DATA.INI" = Raise (Exception "no data format;")
  /\ detect_format None "data.Json" = Raise (Exception "no data format;")
  /\ detect_format None "ini" = Raise (Exception "no data format;").
Proof.
  split; [|split].
  - auto 10 using detect_ini, detect_json, detect_xml, detect_yaml,
      detect_tsv, detect_csv.
  - rewrite detect_format_first_match.
    destruct (first_match suffix_table fname); [reflexivity|].
    split; [reflexivity | apply no_data_format_is_configuration_error].
  - repeat split; reflexivity.
Qed.

End Resolver.

(** ** Dict updates and the merge of [-D] definitions *)

Section Dicts.

Context {A : Type}.
Implicit Types (d : gmap string A) (items : list (string * A)).

Lemma dict_update_nil d : dict_update d [] = d.
Proof. reflexivity. Qed.

Lemma dict_update_cons d k (v : A) items :
  dict_update d ((k, v) :: items) = dict_update (<[k := v]> d) items.
Proof. reflexivity. Qed.

Lemma dict_update_snoc d items k (v : A) :
  dict_update d (items ++ [(k, v)])%list = <[k := v]> (dict_update d items).
Proof. unfold dict_update. rewrite foldl_app. reflexivity. Qed.

(** The last item stored under a key is the one a lookup finds. *)
Lemma lookup_dict_update d items (k : string) :
  dict_update d items !! k =
  match assoc k (rev items) with
  | Some v => Some v
  | None => d !! k
  end.
Proof.
  induction items as [|[k' v'] items IH] using rev_ind.
  - reflexivity.
  - rewrite dict_update_snoc, rev_unit. cbn [assoc].
    destruct (String.eqb_spec k k') as [->|Hne].
    + apply lookup_insert_eq.
    + rewrite lookup_insert_ne by congruence. exact IH.
Qed.

Lemma assoc_app (k : string) (l1 l2 : list (string * A)) :
  assoc k (l1 ++ l2)%list =
  match assoc k l1 with
  | Some v => Some v
  | None => assoc k l2
  end.
Proof.
  induction l1 as [|[k' v'] l1 IH]; cbn [assoc app]; [reflexivity|].
  destruct (String.eqb k k'); [reflexivity | exact IH].
Qed.

Lemma assoc_fmap {B} (f : A -> B) (k : string) (l : list (string * A)) :
  assoc k (map (fun kv => (kv.1, f kv.2)) l) = f <$> assoc k l.
Proof.
  induction l as [|[k' v'] l IH]; cbn [assoc map fst snd]; [reflexivity|].
  destruct (String.eqb k k'); [reflexivity | exact IH].
Qed.

Lemma assoc_Some_In (k : string) (v : A) (l : list (string * A)) :
  assoc k l = Some v -> In (k, v) l.
Proof.
  induction l as [|[k' v'] l IH]; cbn [assoc]; [discriminate|].
  destruct (String.eqb_spec k k') as [->|Hne].
  - intros [= ->]. left. reflexivity.
  - intros H. right. exact (IH H).
Qed.

Lemma assoc_None_keys (k : string) (l : list (string * A)) :
  assoc k l = None <-> ~ In k l.*1.
Proof.
  induction l as [|[k' v'] l IH]; cbn [assoc fmap list_fmap fst In].
  - tauto.
  - destruct (String.eqb_spec k k') as [->|Hne].
    + split; [discriminate | intros H; exfalso; apply H; left; reflexivity].
    + rewrite IH. split.
      * intros H [Heq|Hin]; [congruence | exact (H Hin)].
      * intros H Hin. apply H. right. exact Hin.
Qed.

End Dicts.

Section Merge.

(** What [merge] leaves under a key: the last define for it, else what
    the data had. *)
Lemma lookup_merge (base : gmap string value) (ds : list (string * string))
    (key : string) :
  merge base (Some ds) !! key =
  match assoc key (rev ds) with
  | Some x => Some (VStr x)
  | None => base !! key
  end.
Proof.
  unfold merge. rewrite lookup_dict_update, <- map_rev, assoc_fmap.
  destruct (assoc key (rev ds)); reflexivity.
Qed.

(** C3: with no defines ([None]) or an empty list the data pass through
    unchanged; otherwise the defines are stored one after the other in
    the order given, each replacing whatever the key held, so that the
    last define for a key is the one that stays: two defines for [k]
    leave [base] with [k] set to the second value, whatever the first. *)
Theorem merge_overrides (base : gmap string value)
    (ds : list (string * string)) (k v v1 v2 : string) :
  merge base None = base
  /\ merge base (Some []) = base
  /\ merge base (Some ((k, v) :: ds)) = merge (<[k := VStr v]> base) (Some ds)
  /\ merge base (Some (ds ++ [(k, v)])%list)
     = <[k := VStr v]> (merge base (Some ds))
  /\ (forall key : string,
        merge base (Some ds) !! key =
        match assoc key (rev ds) with
        | Some x => Some (VStr x)
        | None => base !! key
        end)
  /\ merge base (Some [(k, v1); (k, v2)]) = <[k := VStr v2]> base.
Proof.
  repeat split.
  - unfold merge. rewrite map_app. apply dict_update_snoc.
  - apply lookup_merge.
  - unfold merge, dict_update. cbn. apply insert_insert_eq.
Qed.

End Merge.

(** ** Name resolution in the module as written *)

Section Names.

Lemma global_bound (G : list string) (name : string) (w : world) :
  bound G name = true -> global G name w = (Ok tt, w).
Proof. unfold global. intros ->. reflexivity. Qed.

Lemma global_unbound (G : list string) (name : string) (w : world) :
  bound G name = false -> global G name w = (Raise (NameError name), w).
Proof. unfold global. intros ->. reflexivity. Qed.

Lemma collections_unbound : bound module_globals "collections" = false.
Proof. reflexivity. Qed.

Lemma csv_unbound : bound module_globals "csv" = false.
Proof. reflexivity. Qed.

(** What lines 207-211 do once [collections] and [logging] resolve: a
    mapping is returned as it is. *)
Lemma normalize_mapping_when_bound (G : list string)
    (d : gmap string value) (w : world) :
  bound G "collections" = true ->
  normalize G (VDict d) w = (Ok d, w).
Proof.
  intros H. unfold normalize, bind. rewrite (global_bound _ _ _ H).
  reflexivity.
Qed.

(** ... and anything else is put under ['data'], with a notice logged. *)
Lemma normalize_other_when_bound (G : list string) (v : value) (w : world) :
  bound G "collections" = true -> bound G "logging" = true ->
  is_mapping v = false ->
  normalize G v w =
  (Ok {[ "data" := v ]},
   emit (ELogInfo "input doesn't provide top-level keys; using 'data'") w).
Proof.
  intros Hc Hl Hv. unfold normalize, bind. rewrite (global_bound _ _ _ Hc).
  destruct v; try discriminate Hv;
    rewrite (global_bound _ _ _ Hl); reflexivity.
Qed.

(** C1: evaluated in the module's own namespace, the test of line 207
    raises [NameError] for a mapping, for the empty list and for [None]
    alike: the mapping is not returned and nothing is put under
    ['data']. *)
Theorem normalize_raises_on_samples (w : world) :
  normalize module_globals (VDict {[ "k" := VStr "v" ]}) w
  = (Raise (NameError "collections"), w)
  /\ normalize module_globals (VList []) w
     = (Raise (NameError "collections"), w)
  /\ normalize module_globals VNone w
     = (Raise (NameError "collections"), w).
Proof. repeat split. Qed.

(** C2: in the module's own namespace the normalization step returns
    for no input at all: every call ends in [NameError], the world left
    as it was. *)
Theorem normalize_never_returns (v : value) (w : world) :
  normalize module_globals v w = (Raise (NameError "collections"), w).
Proof. reflexivity. Qed.

(** C7: in the module's own namespace [load_data_dsv] raises [NameError]
    at its first statement, whatever the stream, the dialect and the
    header option: no row is ever read, with or without headers. *)
Theorem load_data_dsv_raises (E : externals) (fin : stream)
    (dialect : string) (has_headers : bool) (w : world) :
  load_data_dsv E module_globals fin dialect has_headers w
  = (Raise (NameError "csv"), w).
Proof. reflexivity. Qed.

(** Importing [csv] alone would not do: [dialect_args] is read next. *)
Lemma load_data_dsv_raises_with_csv (E : externals) (fin : stream)
    (dialect : string) (has_headers : bool) (w : world) :
  load_data_dsv E ("csv" :: module_globals) fin dialect has_headers w
  = (Raise (NameError "dialect_args"), w).
Proof. reflexivity. Qed.

(** With every name supplied the loader hands the text to the reader. *)
Lemma load_data_dsv_repaired (E : externals) (fin : stream)
    (dialect : string) (has_headers : bool) (w : world) :
  load_data_dsv E repaired_globals fin dialect has_headers w
  = ((text <- read_all fin ;;
      lift (csv_rows E dialect has_headers text)) w).
Proof. reflexivity. Qed.


End Names.

(** ** Explicit formats and the absent data file *)

Section Formats.

Context (E : externals).

Lemma dispatch_unrecognized (G : list string) (fmt : string) (fin : stream)
    (w : world) :
  recognized_format fmt = false ->
  dispatch E G fmt fin w
  = (Raise (Exception ("invalid data format: " ++ fmt ++ ";")), w).
Proof.
  unfold recognized_format. intros H.
  apply orb_false_elim in H as [Hnames Hprefix].
  cbn [suffix_table fmap list_fmap snd existsb] in Hnames.
  repeat (apply orb_false_elim in Hnames as [? Hnames]).
  unfold dispatch.
  repeat match goal with
         | Heq : String.eqb fmt _ = false |- _ => rewrite Heq; clear Heq
         end.
  rewrite Hprefix. reflexivity.
Qed.

(** C6: an explicit format that is none of the six names and does not
    start with [csv.] makes the body of the [try] raise "invalid data
    format", a ConfigurationError, for every file name and every opened
    stream; so does [load_data]'s loading stage on standard input and on
    any file that opens, after closing the stream. *)
Theorem invalid_format_rejected (G : list string) (fmt fname : string)
    (fin : stream) (w : world) :
  recognized_format fmt = false ->
  detect_and_load E G fname (Some fmt) fin w
  = (Raise (Exception ("invalid data format: " ++ fmt ++ ";")), w)
  /\ ConfigurationError (Exception ("invalid data format: " ++ fmt ++ ";"))
  /\ read_data E module_globals (Some "-") (Some fmt) w
     = (Raise (Exception ("invalid data format: " ++ fmt ++ ";")),
        emit (ECloseIn Stdin) w)
  /\ (fname <> "-" -> is_Some (w_files w !! fname) ->
      forall defines : option (list (string * string)),
        read_data E module_globals (Some fname) (Some fmt) w
        = (Raise (Exception ("invalid data format: " ++ fmt ++ ";")),
           emit (ECloseIn (FileIn fname)) (emit (EOpenRead fname) w))
        /\ (load_data E module_globals (Some fname) (Some fmt) defines w).1
           = Raise (Exception ("invalid data format: " ++ fmt ++ ";"))).
Proof.
  intros H. split; [|split; [|split]].
  - unfold detect_and_load, bind, lift. cbn [detect_format].
    apply dispatch_unrecognized, H.
  - apply invalid_format_is_configuration_error.
  - unfold read_data, try_finally, detect_and_load, bind, lift.
    cbn [String.eqb Ascii.eqb Bool.eqb detect_format].
    rewrite global_bound by reflexivity. cbn [ret].
    rewrite dispatch_unrecognized by exact H. reflexivity.
  - intros Hne [text Hopen] defines.
    assert (Hread :
      read_data E module_globals (Some fname) (Some fmt) w
      = (Raise (Exception ("invalid data format: " ++ fmt ++ ";")),
         emit (ECloseIn (FileIn fname)) (emit (EOpenRead fname) w))).
    { unfold read_data, try_finally, detect_and_load, bind, lift, open_rt.
      apply String.eqb_neq in Hne. rewrite Hne, Hopen.
      cbn [detect_format].
      rewrite dispatch_unrecognized by exact H. reflexivity. }
    split; [exact Hread|].
    unfold load_data, bind. rewrite Hread. reflexivity.
Qed.

Lemma read_data_no_file (G : list string) (fmt : option string) (w : world) :
  read_data E G None fmt w = (Ok (VDict ∅), w).
Proof. reflexivity. Qed.

(** C5 as the code has it: without a data file the requested format is
    never looked at.  The loading stage returns the empty dict for every
    format, known or not, and no run of [load_data] ends in a
    ConfigurationError. *)
Theorem no_file_ignores_format (G : list string) (fmt : option string)
    (defines : option (list (string * string))) (w : world) (e : exn) :
  ConfigurationError e ->
  read_data E G None fmt w = (Ok (VDict ∅), w)
  /\ (load_data E G None fmt defines w).1 <> Raise e.
Proof.
  intros He. split; [reflexivity|].
  unfold load_data, bind. rewrite read_data_no_file.
  unfold normalize, bind, global.
  destruct (bound G "collections"); cbn; [discriminate|].
  intros [= <-]. destruct He as [He|[f He]]; discriminate He.
Qed.

End Formats.

(** C5, refuted as stated: with no data file and the format [json]
    requested, [load_data] raises no ConfigurationError, neither in the
    module's own namespace (where it stops at line 207) nor with the
    missing names supplied (where it returns the empty dict). *)
Lemma no_file_format_requested_no_configuration_error :
  ~ (exists (e : exn) (w' : world),
       load_data sample_externals module_globals None (Some "json") None
         sample_world = (Raise e, w')
       /\ ConfigurationError e)
  /\ load_data sample_externals repaired_globals None (Some "json") None
       sample_world = (Ok ∅, sample_world).
Proof.
  split; [|reflexivity].
  intros (e & w' & Hrun & He).
  assert (Hcode :
    load_data sample_externals module_globals None (Some "json") None
      sample_world = (Raise (NameError "collections"), sample_world))
    by reflexivity.
  rewrite Hcode in Hrun. injection Hrun as <- _.
  destruct He as [He|[f He]]; discriminate He.
Qed.

Lemma invalid_format_rejected_witness :
  recognized_format "frobnicate" = false
  /\ detect_and_load sample_externals module_globals "d.json"
       (Some "frobnicate") (FileIn "d.json") sample_world
     = (Raise (Exception "invalid data format: frobnicate;"), sample_world).
Proof.
  split; [reflexivity|].
  exact (proj1 (invalid_format_rejected sample_externals module_globals
                  "frobnicate" "d.json" (FileIn "d.json") sample_world
                  eq_refl)).
Defined.

Lemma no_file_ignores_format_witness :
  ConfigurationError (Exception "no data format;")
  /\ read_data sample_externals repaired_globals None (Some "json")
       sample_world = (Ok (VDict ∅), sample_world)
  /\ (load_data sample_externals repaired_globals None (Some "json") None
        sample_world).1 <> Raise (Exception "no data format;").
Proof.
  split; [left; reflexivity|].
  apply (no_file_ignores_format sample_externals repaired_globals
           (Some "json") None sample_world (Exception "no data format;")).
  left. reflexivity.
Defined.

(** ** The template argument *)

Section Template.

Context (E : externals) (G : list string).

(** C10: leaving the template argument out is the same as giving ["-"]:
    both take the branch of line 298, so [main] runs identically, and in
    the module's namespace that branch reads the template wholly from
    standard input. *)
Theorem main_template_omitted (defines : option (list (string * string)))
    (data fmt out : option string) (w : world) :
  load_template E G None = load_template E G (Some "-")
  /\ main E G (mkArgs defines data fmt out None) w
     = main E G (mkArgs defines data fmt out (Some "-")) w
  /\ load_template E module_globals None w
     = (get_template_dict E (w_stdin w),
        emit (EReadAll Stdin)
          (mkWorld "" (w_files w) (w_locked w) (w_stdout w) (w_trace w))).
Proof. repeat split. Qed.

End Template.

(** ** Rendering comes before output *)

Section Quiet.

Lemma quiet_pure {A} (f : world -> result A) : quiet (fun w => (f w, w)).
Proof.
  intros w. cbn. split; [reflexivity|]. split; [reflexivity|].
  exists []. rewrite app_nil_r. auto.
Qed.

Lemma quiet_ret {A} (a : A) : quiet (ret a).
Proof. exact (quiet_pure (fun _ => Ok a)). Qed.

Lemma quiet_raise {A} (e : exn) : quiet (@raise A e).
Proof. exact (quiet_pure (fun _ => Raise e)). Qed.

Lemma quiet_lift {A} (r : result A) : quiet (lift r).
Proof. exact (quiet_pure (fun _ => r)). Qed.

Lemma quiet_log (e : event) : is_output_event e = false -> quiet (log e).
Proof.
  intros He w. cbn. split; [reflexivity|]. split; [reflexivity|].
  exists [e]. auto.
Qed.

Lemma quiet_bind {A B} (m : M A) (k : A -> M B) :
  quiet m -> (forall a, quiet (k a)) -> quiet (bind m k).
Proof.
  intros Hm Hk w. unfold bind. specialize (Hm w).
  destruct (m w) as [[a|e] w1]; cbn in Hm; [|exact Hm].
  destruct Hm as (Hf & Hs & new1 & Ht & Hn).
  destruct (Hk a w1) as (Hf' & Hs' & new2 & Ht' & Hn').
  split; [congruence|]. split; [congruence|].
  exists (new1 ++ new2)%list. split.
  - rewrite Ht', Ht, app_assoc. reflexivity.
  - apply Forall_app. auto.
Qed.

Lemma quiet_try_finally {A} (body : M A) (cleanup : M unit) :
  quiet body -> quiet cleanup -> quiet (try_finally body cleanup).
Proof.
  intros Hb Hc w. unfold try_finally. specialize (Hb w).
  destruct (body w) as [r w1]; cbn in Hb.
  destruct Hb as (Hf & Hs & new1 & Ht & Hn).
  specialize (Hc w1).
  destruct (cleanup w1) as [[[]|e] w2]; cbn in Hc |- *;
    destruct Hc as (Hf' & Hs' & new2 & Ht' & Hn');
    (split; [congruence|]; split; [congruence|];
     exists (new1 ++ new2)%list; split;
     [rewrite Ht', Ht, app_assoc; reflexivity | apply Forall_app; auto]).
Qed.

Lemma quiet_global (G : list string) (name : string) : quiet (global G name).
Proof.
  unfold global. destruct (bound G name); [apply quiet_ret | apply quiet_raise].
Qed.

Lemma quiet_read_all (fin : stream) : quiet (read_all fin).
Proof.
  intros w. destruct fin; cbn; (split; [reflexivity|]);
    (split; [reflexivity|]); eexists [_]; (split; [reflexivity | auto]).
Qed.

Lemma quiet_open_rt (fname : string) : quiet (open_rt fname).
Proof.
  intros w. unfold open_rt. destruct (w_files w !! fname); cbn;
    (split; [reflexivity|]); (split; [reflexivity|]).
  - eexists [_]. split; [reflexivity | auto].
  - exists []. rewrite app_nil_r. auto.
Qed.

Lemma quiet_close_in (fin : stream) : quiet (close_in fin).
Proof. apply quiet_log. reflexivity. Qed.

End Quiet.

Create HintDb quiet.
#[export] Hint Resolve quiet_pure quiet_ret quiet_raise quiet_lift
  quiet_global quiet_read_all quiet_open_rt quiet_close_in
  quiet_try_finally : quiet.

(** Walks a monadic body statement by statement. *)
Ltac quiet_body :=
  repeat first
    [ apply quiet_bind; [|intro]
    | apply quiet_try_finally
    | apply quiet_log; reflexivity
    | match goal with
      | |- quiet (if ?c then _ else _) => destruct c
      | |- quiet (match ?x with _ => _ end) => destruct x
      end
    | solve [auto with quiet] ].

Section RenderThenWrite.

Context (E : externals) (G : list string).

Lemma quiet_load_data_ini fin : quiet (load_data_ini E G fin).
Proof. unfold load_data_ini. quiet_body. Qed.

Lemma quiet_load_data_json fin : quiet (load_data_json E G fin).
Proof. unfold load_data_json. quiet_body. Qed.

Lemma quiet_load_data_xml fin : quiet (load_data_xml E G fin).
Proof. unfold load_data_xml. quiet_body. Qed.

Lemma quiet_load_data_yaml fin : quiet (load_data_yaml E G fin).
Proof. unfold load_data_yaml. quiet_body. Qed.

Lemma quiet_load_data_dsv fin dialect has_headers :
  quiet (load_data_dsv E G fin dialect has_headers).
Proof. unfold load_data_dsv. quiet_body. Qed.

Hint Resolve quiet_load_data_ini quiet_load_data_json quiet_load_data_xml
  quiet_load_data_yaml quiet_load_data_dsv : quiet.

Lemma quiet_dispatch fmt fin : quiet (dispatch E G fmt fin).
Proof. unfold dispatch. quiet_body. Qed.

Hint Resolve quiet_dispatch : quiet.

Lemma quiet_read_data fname fmt : quiet (read_data E G fname fmt).
Proof. unfold read_data, detect_and_load. quiet_body. Qed.

Lemma quiet_normalize data : quiet (normalize G data).
Proof. unfold normalize. quiet_body. Qed.

Hint Resolve quiet_read_data quiet_normalize : quiet.

Lemma quiet_load_data fname fmt defines :
  quiet (load_data E G fname fmt defines).
Proof. unfold load_data. quiet_body. Qed.

Lemma quiet_load_template t : quiet (load_template E G t).
Proof. unfold load_template. quiet_body. Qed.

Hint Resolve quiet_load_data quiet_load_template : quiet.

Lemma quiet_render_template a : quiet (render_template E G a).
Proof. unfold render_template. quiet_body. Qed.

End RenderThenWrite.

Section Ordering.

Lemma writes_follow_render_after (pre post : list event) (text : string) :
  Forall (fun e => is_output_event e = false) pre ->
  writes_follow_render (pre ++ ERendered text :: post).
Proof.
  intros Hpre i e Hi He.
  exists (length pre), text. split.
  - destruct (decide (i < length pre)) as [Hlt|Hge].
    + rewrite lookup_app_l in Hi by exact Hlt.
      rewrite Forall_forall in Hpre.
      apply list_elem_of_lookup_2, Hpre in Hi. congruence.
    + destruct (decide (i = length pre)) as [->|Hne]; [|lia].
      rewrite list_lookup_middle in Hi by reflexivity.
      injection Hi as <-. discriminate He.
  - apply list_lookup_middle. reflexivity.
Qed.

Lemma writes_follow_render_quiet (new : list event) :
  Forall (fun e => is_output_event e = false) new ->
  writes_follow_render new.
Proof.
  intros Hnew i e Hi He. rewrite Forall_forall in Hnew.
  apply list_elem_of_lookup_2, Hnew in Hi. congruence.
Qed.

(** The output stage logs nothing but the opening of the destination, one
    write of the whole text and the close. *)
Lemma write_output_trace (G : list string) (o : option string)
    (text : string) (w : world) :
  exists post : list event,
    w_trace (write_output G o text w).2 = (w_trace w ++ post)%list
    /\ Forall (writes_only text) post.
Proof.
  unfold write_output, open_output, bind, try_finally, global, open_wt.
  destruct (none_or_dash o).
  - destruct (bound G "sys"); cbn.
    + exists [EWrite Stdout text; ECloseOut Stdout]. split.
      * rewrite <- !app_assoc. reflexivity.
      * repeat constructor.
    + exists []. rewrite app_nil_r. split; [reflexivity | constructor].
  - destruct (existsb _ _); cbn.
    + exists []. rewrite app_nil_r. split; [reflexivity | constructor].
    + eexists [EOpenWrite _; EWrite _ text; ECloseOut _]. split.
      * rewrite <- !app_assoc. reflexivity.
      * repeat constructor.
Qed.

(** C9: [main] writes nothing before [template.render] has returned.
    When anything up to and including the rendering raises, [main] raises
    the same exception, files and standard output are as they were and no
    output event is logged; when the rendering returns [text], nothing
    has touched the output by then, and what follows is at most the
    opening of the destination, a write of exactly [text] and the close.
    In every run each output event comes after the rendering's. *)
Theorem render_precedes_output (E : externals) (G : list string) (a : args)
    (w : world) :
  match render_template E G a w with
  | (Raise e, w1) =>
      main E G a w = (Raise e, w1)
      /\ w_files w1 = w_files w /\ w_stdout w1 = w_stdout w
      /\ exists new : list event,
           w_trace w1 = (w_trace w ++ new)%list
           /\ Forall (fun ev => is_output_event ev = false) new
  | (Ok text, w1) =>
      w_files w1 = w_files w /\ w_stdout w1 = w_stdout w
      /\ exists pre post : list event,
           w_trace w1 = (w_trace w ++ pre)%list
           /\ Forall (fun ev => is_output_event ev = false) pre
           /\ w_trace (main E G a w).2
              = (w_trace w ++ pre ++ ERendered text :: post)%list
           /\ Forall (writes_only text) post
  end
  /\ exists new : list event,
       w_trace (main E G a w).2 = (w_trace w ++ new)%list
       /\ writes_follow_render new.
Proof.
  pose proof (quiet_render_template E G a w) as Hq.
  destruct (render_template E G a w) as [[text|e] w1] eqn:Hr; cbn in Hq;
    destruct Hq as (Hf & Hs & pre & Ht & Hpre).
  - assert (Hmain : main E G a w
                    = write_output G (a_output a) text
                        (emit (ERendered text) w1))
      by (unfold main, bind, log; rewrite Hr; reflexivity).
    destruct (write_output_trace G (a_output a) text
                (emit (ERendered text) w1)) as (post & Hpost & Hwrites).
    cbn [emit w_trace] in Hpost. rewrite Ht, <- !app_assoc in Hpost.
    rewrite <- Hmain in Hpost. cbn [app] in Hpost.
    split.
    + split; [exact Hf|]. split; [exact Hs|].
      exists pre, post. auto.
    + exists (pre ++ ERendered text :: post)%list. split; [exact Hpost|].
      apply writes_follow_render_after, Hpre.
  - assert (Hmain : main E G a w = (Raise e, w1))
      by (unfold main, bind; rewrite Hr; reflexivity).
    rewrite Hmain. split.
    + split; [reflexivity|]. split; [exact Hf|]. split; [exact Hs|].
      exists pre. auto.
    + exists pre. split; [exact Ht|].
      apply writes_follow_render_quiet, Hpre.
Qed.

End Ordering.

(** ** The ini loader *)

Section Keyed.

Context {A : Type}.

Lemma rmapM_total {B} (f : B -> result A) (l : list B) :
  (forall b, In b l -> exists a, f b = Ok a) ->
  exists bs, rmapM f l = Ok bs.
Proof.
  induction l as [|b l IH]; intros H; cbn [rmapM].
  - eauto.
  - destruct (H b) as [a Ha]; [left; reflexivity|].
    destruct IH as [bs Hbs]; [intros b' Hb'; apply H; right; exact Hb'|].
    rewrite Ha, Hbs. cbn. eauto.
Qed.

(** Items computed key by key, as [{k: g(k) for k in keys}] does. *)
Lemma rmapM_keyed (g : string -> result A)
    (f : string -> result (string * A)) (keys : list string)
    (kw : list (string * A)) :
  (forall k, f k = rbind (g k) (fun v => Ok (k, v))) ->
  rmapM f keys = Ok kw ->
  (forall k v, In (k, v) kw -> In k keys /\ g k = Ok v)
  /\ (forall k, In k keys -> exists v, g k = Ok v /\ In (k, v) kw).
Proof.
  intros Hf. revert kw.
  induction keys as [|key keys IH]; intros kw; cbn [rmapM].
  - intros [= <-]. split; [intros k v []|intros k []].
  - rewrite Hf. destruct (g key) as [v0|e] eqn:Hg; cbn; [|discriminate].
    destruct (rmapM f keys) as [kw'|e]; cbn; [|discriminate].
    intros [= <-]. destruct (IH kw' eq_refl) as [IH1 IH2]. split.
    + intros k v [[= <- <-]|Hin].
      * split; [left; reflexivity | exact Hg].
      * destruct (IH1 k v Hin). split; [right|]; assumption.
    + intros k [<-|Hin].
      * exists v0. split; [exact Hg | left; reflexivity].
      * destruct (IH2 k Hin) as (v & Hv & Hkw). exists v.
        split; [exact Hv | right; exact Hkw].
Qed.

Lemma In_keys (k : string) (v : A) (l : list (string * A)) :
  In (k, v) l -> In k l.*1.
Proof.
  intros H. apply list_elem_of_In.
  apply (list_elem_of_fmap_2' fst l (k, v)); [|reflexivity].
  apply list_elem_of_In, H.
Qed.

Lemma keyed_lookup_in (g : string -> result A) (keys : list string)
    (kw : list (string * A)) (d : gmap string A) (k : string) :
  (forall k v, In (k, v) kw -> In k keys /\ g k = Ok v) ->
  (forall k, In k keys -> exists v, g k = Ok v /\ In (k, v) kw) ->
  In k keys ->
  exists v, g k = Ok v /\ dict_update d kw !! k = Some v.
Proof.
  intros H1 H2 Hk. rewrite lookup_dict_update.
  destruct (assoc k (rev kw)) as [v|] eqn:Ha.
  - apply assoc_Some_In, in_rev, H1 in Ha. exists v. tauto.
  - exfalso. apply assoc_None_keys in Ha. apply Ha.
    destruct (H2 k Hk) as (v & _ & Hin).
    apply In_keys with v. apply in_rev. rewrite rev_involutive. exact Hin.
Qed.

Lemma keyed_lookup_out (g : string -> result A) (keys : list string)
    (kw : list (string * A)) (d : gmap string A) (k : string) :
  (forall k v, In (k, v) kw -> In k keys /\ g k = Ok v) ->
  ~ In k keys ->
  dict_update d kw !! k = d !! k.
Proof.
  intros H1 Hk. rewrite lookup_dict_update.
  destruct (assoc k (rev kw)) as [v|] eqn:Ha; [|reflexivity].
  apply assoc_Some_In, in_rev, H1 in Ha. tauto.
Qed.

Lemma assoc_is_Some_keys (k : string) (l : list (string * A)) :
  is_Some (assoc k l) <-> In k l.*1.
Proof.
  rewrite <- not_eq_None_Some, assoc_None_keys.
  split; [|tauto]. intros H.
  destruct (decide (k ∈ l.*1)) as [Hin|Hout].
  - apply list_elem_of_In, Hin.
  - exfalso. apply H. intros Hin. apply Hout, list_elem_of_In, Hin.
Qed.

End Keyed.

Section Ini.

Context (E : externals).

Lemma assoc_rev_None {A} (k : string) (l : list (string * A)) :
  assoc k l = None -> assoc k (rev l) = None.
Proof.
  intros H. destruct (assoc k (rev l)) as [v|] eqn:Ha; [|reflexivity].
  apply assoc_Some_In, in_rev, In_keys in Ha.
  apply assoc_None_keys in H. tauto.
Qed.

Lemma in_cp_options (cp : ConfigParser) (own : list (string * string))
    (k : string) :
  In k (cp_options cp own) <-> is_Some (overlay cp own k).
Proof.
  unfold cp_options, overlay. rewrite in_app_iff.
  rewrite <- (assoc_is_Some_keys k own), <- list_elem_of_In.
  rewrite list_elem_of_filter, list_elem_of_In, <- assoc_is_Some_keys.
  destruct (assoc k own) as [v|].
  - split; [eauto | intros _; left; eauto].
  - split; [intros [[? [=]]|[_ H]]; exact H | intros H; right; auto].
Qed.

Lemma cp_get_overlay (cp : ConfigParser) (own : list (string * string))
    (k : string) :
  cp_get E cp own k =
  match overlay cp own k with
  | Some raw => before_get E (own ++ cp_defaults cp)%list raw
  | None => Raise (KeyError k)
  end.
Proof.
  unfold cp_get, overlay. rewrite assoc_app.
  destruct (assoc k own); reflexivity.
Qed.

(** What [dict(cp.defaults(), **cp[s])] holds under a key. *)
Lemma ini_section_lookup (cp : ConfigParser) (s : string)
    (own : list (string * string)) (m : gmap string string) :
  assoc s (cp_sections cp) = Some own ->
  ini_section E cp s = Ok m ->
  forall k : string,
    match overlay cp own k with
    | Some raw =>
        exists v, before_get E (own ++ cp_defaults cp)%list raw = Ok v
                  /\ m !! k = Some v
    | None => m !! k = None
    end.
Proof.
  intros Hs. unfold ini_section, cp_items. rewrite Hs.
  destruct (rmapM _ _) as [kw|e] eqn:Hkw; cbn; [|discriminate].
  intros [= <-] k.
  apply (rmapM_keyed (cp_get E cp own)) in Hkw as [H1 H2];
    [|reflexivity].
  destruct (overlay cp own k) as [raw|] eqn:Ho.
  - destruct (keyed_lookup_in _ _ _ (dict_update ∅ (cp_defaults cp)) k H1 H2)
      as (v & Hv & Hm).
    + apply in_cp_options. rewrite Ho. eauto.
    + rewrite cp_get_overlay, Ho in Hv. eauto.
  - rewrite (keyed_lookup_out _ _ _ _ k H1).
    + rewrite lookup_dict_update, assoc_rev_None; [apply lookup_empty|].
      unfold overlay in Ho. destruct (assoc k own); [discriminate|exact Ho].
    + rewrite in_cp_options, Ho. intros [? [=]].
Qed.

(** What the comprehension of line 46 holds under a section name. *)
Lemma ini_dict_lookup (cp : ConfigParser) (r : value) :
  ini_dict E cp = Ok r ->
  exists res : gmap string value,
    r = VDict res
    /\ forall s : string,
         match assoc s (cp_sections cp) with
         | Some own =>
             exists m, ini_section E cp s = Ok m
                       /\ res !! s = Some (VDict (VStr <$> m))
         | None => res !! s = None
         end.
Proof.
  unfold ini_dict.
  destruct (rmapM _ _) as [items|e] eqn:Hitems; cbn; [|discriminate].
  intros [= <-]. eexists. split; [reflexivity|]. intros s.
  apply (rmapM_keyed
           (fun s => rbind (ini_section E cp s)
                       (fun d => Ok (VDict (VStr <$> d)))))
    in Hitems as [H1 H2];
    [|intros k; destruct (ini_section E cp k); reflexivity].
  destruct (assoc s (cp_sections cp)) as [own|] eqn:Hs.
  - destruct (keyed_lookup_in _ _ _ ∅ s H1 H2) as (v & Hv & Hm).
    + apply assoc_is_Some_keys. rewrite Hs. eauto.
    + destruct (ini_section E cp s) as [m|e]; [|discriminate].
      injection Hv as <-. eauto.
  - rewrite (keyed_lookup_out _ _ _ _ s H1); [apply lookup_empty|].
    unfold cp_section_names. rewrite <- assoc_is_Some_keys, Hs.
    intros [? [=]].
Qed.

Lemma plain_before_get (d : list (string * string)) (raw : string) :
  has_percent raw = false -> before_get E d raw = Ok raw.
Proof. unfold before_get. intros ->. reflexivity. Qed.

(** Without interpolation requests the comprehension cannot fail. *)
Lemma ini_dict_plain (cp : ConfigParser) :
  cp_plain cp = true -> exists res, ini_dict E cp = Ok (VDict res).
Proof.
  unfold cp_plain. intros H. apply andb_prop in H as [Hd Hs].
  rewrite forallb_forall in Hd, Hs.
  unfold ini_dict.
  destruct (rmapM_total
              (fun s => rbind (ini_section E cp s)
                          (fun d => Ok (s, VDict (VStr <$> d))))
              (cp_section_names cp)) as [items ->]; [|cbn; eauto].
  intros s Hin. apply assoc_is_Some_keys in Hin as [own Hown].
  unfold ini_section, cp_items. rewrite Hown.
  destruct (rmapM_total
              (fun k => rbind (cp_get E cp own k) (fun v => Ok (k, v)))
              (cp_options cp own)) as [kw ->]; [|cbn; eauto].
  intros k Hk. apply in_cp_options in Hk as [raw Hraw].
  rewrite cp_get_overlay, Hraw, plain_before_get; [cbn; eauto|].
  unfold overlay in Hraw. destruct (assoc k own) as [v|] eqn:Hv.
  - injection Hraw as ->. apply assoc_Some_In in Hv, Hown.
    specialize (Hs _ Hown). cbn in Hs. rewrite forallb_forall in Hs.
    specialize (Hs _ Hv). apply negb_true_iff in Hs. exact Hs.
  - apply assoc_Some_In in Hraw. specialize (Hd _ Hraw).
    apply negb_true_iff in Hd. exact Hd.
Qed.

Lemma load_data_ini_run (G : list string) (fin : stream) (w : world) :
  bound G "configparser" = true ->
  load_data_ini E G fin w
  = (rbind (configparser_read_file E (stream_text fin w)) (ini_dict E),
     (read_all fin w).2).
Proof.
  intros HG. unfold load_data_ini, bind. rewrite (global_bound _ _ _ HG).
  destruct fin; cbn; unfold lift;
    destruct (configparser_read_file E _); reflexivity.
Qed.

End Ini.

(** C8: [load_data_ini] returns a dict from section name to a dict of
    strings in which the section's own keys lie over the DEFAULT ones.
    Let the parsed file be [cp] and [s] one of its sections with own
    options [own].  If no value asks for interpolation the loader returns;
    and whenever it returns, the result is a dict whose keys are the
    section names, whose entry for [s] has exactly the keys of [own] and
    of the defaults, each value that needs no interpolation being the
    section's own, else the default one.  So a section without [x] under
    defaults with [x = 5] maps [x] to ["5"]. *)
Theorem load_data_ini_overlays_defaults (E : externals) (fin : stream)
    (w : world) (cp : ConfigParser) (s : string)
    (own : list (string * string)) :
  configparser_read_file E (stream_text fin w) = Ok cp ->
  assoc s (cp_sections cp) = Some own ->
  (cp_plain cp = true ->
   exists res, (load_data_ini E module_globals fin w).1 = Ok (VDict res))
  /\ forall r : value,
       (load_data_ini E module_globals fin w).1 = Ok r ->
       exists (res : gmap string value) (m : gmap string string),
         r = VDict res
         /\ (forall name : string,
               is_Some (res !! name)
               <-> is_Some (assoc name (cp_sections cp)))
         /\ res !! s = Some (VDict (VStr <$> m))
         /\ (forall k : string, is_Some (m !! k) <-> is_Some (overlay cp own k))
         /\ (forall k raw : string,
               overlay cp own k = Some raw -> has_percent raw = false ->
               m !! k = Some raw)
         /\ (assoc "x" own = None -> assoc "x" (cp_defaults cp) = Some "5" ->
             (VStr <$> m) !! "x" = Some (VStr "5")).
Proof.
  intros Hcp Hs. rewrite load_data_ini_run by reflexivity.
  rewrite Hcp. cbn [rbind fst]. split.
  - intros Hplain. apply ini_dict_plain, Hplain.
  - intros r Hr. apply ini_dict_lookup in Hr as (res & -> & Hres).
    pose proof (Hres s) as Hsec. rewrite Hs in Hsec.
    destruct Hsec as (m & Hm & Hlook).
    pose proof (ini_section_lookup E cp s own m Hs Hm) as Hkeys.
    exists res, m. split; [reflexivity|]. split; [|split; [exact Hlook|]].
    { intros name. specialize (Hres name).
      destruct (assoc name (cp_sections cp)) as [own'|].
      - destruct Hres as (m' & _ & ->). split; eauto.
      - rewrite Hres. split; intros [? [=]]. }
    assert (Hplain : forall k raw, overlay cp own k = Some raw ->
                     has_percent raw = false -> m !! k = Some raw).
    { intros k raw Ho Hraw. specialize (Hkeys k). rewrite Ho in Hkeys.
      destruct Hkeys as (v & Hv & ->).
      rewrite plain_before_get in Hv by exact Hraw. congruence. }
    split; [|split; [exact Hplain|]].
    + intros k. specialize (Hkeys k).
      destruct (overlay cp own k) as [raw|].
      * destruct Hkeys as (v & _ & ->). split; eauto.
      * rewrite Hkeys. split; intros [? [=]].
    + intros Hx Hd. rewrite lookup_fmap, (Hplain "x" "5"); [reflexivity| |].
      * unfold overlay. rewrite Hx. exact Hd.
      * reflexivity.
Qed.

Lemma load_data_ini_overlays_defaults_witness :
  configparser_read_file sample_externals
    (stream_text (FileIn "conf.ini") sample_world) = Ok sample_cp
  /\ assoc "web" (cp_sections sample_cp) = Some [("port", "80")]
  /\ exists res,
       (load_data_ini sample_externals module_globals (FileIn "conf.ini")
          sample_world).1 = Ok (VDict res).
Proof.
  split; [reflexivity|]. split; [reflexivity|].
  apply (proj1 (load_data_ini_overlays_defaults sample_externals
                  (FileIn "conf.ini") sample_world sample_cp "web"
                  [("port", "80")] eq_refl eq_refl)).
  reflexivity.
Defined.

(** * Further properties of the module *)

(** ** Format detection and dispatch *)

Section Detection.

Lemma first_match_sound (table : list (string * string)) (fname fmt : string) :
  first_match table fname = Some fmt ->
  exists suffix, In (suffix, fmt) table /\ endswith fname suffix = true.
Proof.
  induction table as [|[s f] table IH]; cbn [first_match]; [discriminate|].
  destruct (endswith fname s) eqn:Hs.
  - intros [= <-]. exists s. split; [left; reflexivity | exact Hs].
  - intros H. destruct (IH H) as (suffix & Hin & Hm).
    exists suffix. split; [right; exact Hin | exact Hm].
Qed.

Lemma first_match_complete (table : list (string * string))
    (fname suffix fmt : string) :
  In (suffix, fmt) table -> endswith fname suffix = true ->
  is_Some (first_match table fname).
Proof.
  induction table as [|[s f] table IH]; cbn [first_match In]; [tauto|].
  intros [[= -> ->]|Hin] Hm.
  - rewrite Hm. eauto.
  - destruct (endswith fname s); [eauto | exact (IH Hin Hm)].
Qed.

Lemma suffix_table_unambiguous (fname s1 f1 s2 f2 : string) :
  In (s1, f1) suffix_table -> In (s2, f2) suffix_table ->
  endswith fname s1 = true -> endswith fname s2 = true ->
  s1 = s2 /\ f1 = f2.
Proof.
  intros H1 H2 E1 E2.
  apply endswith_spec in E1 as [p Hp]. apply endswith_spec in E2 as [q Hq].
  rewrite Hp in Hq. apply app_tails_comparable in Hq.
  cbn [suffix_table In] in H1, H2.
  repeat (destruct H1 as [H1|H1]; [injection H1 as <- <-|]);
    try contradiction;
    repeat (destruct H2 as [H2|H2]; [injection H2 as <- <-|]);
    try contradiction;
    first [ split; reflexivity
          | destruct Hq as [Hq|Hq]; vm_compute in Hq; discriminate Hq ].
Qed.

(** X1: without an explicit format, a file name resolves to a format
    exactly when it ends with a suffix the table pairs with that format;
    and no file name ends with two suffixes of the table, so the order in
    which lines 164-175 test them never decides the outcome. *)
Theorem detect_format_iff_suffix (fname fmt : string) :
  (detect_format None fname = Ok fmt
   <-> exists suffix,
         In (suffix, fmt) suffix_table /\ endswith fname suffix = true)
  /\ (forall s1 f1 s2 f2 : string,
        In (s1, f1) suffix_table -> In (s2, f2) suffix_table ->
        endswith fname s1 = true -> endswith fname s2 = true ->
        s1 = s2 /\ f1 = f2).
Proof.
  split; [|apply suffix_table_unambiguous].
  rewrite detect_format_first_match. split.
  - destruct (first_match suffix_table fname) as [f|] eqn:Hf; [|discriminate].
    intros [= <-]. apply first_match_sound, Hf.
  - intros (suffix & Hin & Hm).
    destruct (first_match_complete _ _ _ _ Hin Hm) as [f Hf]. rewrite Hf.
    destruct (first_match_sound _ _ _ Hf) as (s' & Hin' & Hm').
    destruct (suffix_table_unambiguous _ _ _ _ _ Hin Hin' Hm Hm') as [_ ->].
    reflexivity.
Qed.

(** X2: a format found from the suffix is always one the dispatch of lines
    180-195 has a loader for: detection by suffix never leads to the
    "invalid data format" branch. *)
Theorem detected_format_is_recognized (E : externals) (G : list string)
    (fname fmt : string) (fin : stream) (w : world) :
  detect_format None fname = Ok fmt ->
  recognized_format fmt = true
  /\ In fmt ["ini"; "json"; "xml"; "yaml"; "tsv"; "csv"]
  /\ detect_and_load E G fname None fin w = dispatch E G fmt fin w.
Proof.
  intros H. unfold detect_and_load, bind, lift. rewrite H.
  rewrite detect_format_first_match in H.
  destruct (first_match suffix_table fname) as [f|] eqn:Hf; [|discriminate].
  injection H as ->.
  apply first_match_sound in Hf as (s & Hin & _).
  cbn [suffix_table In] in Hin.
  repeat (destruct Hin as [Hin|Hin]; [injection Hin as _ <-; cbn; tauto|]).
  contradiction.
Qed.

Lemma detected_format_is_recognized_witness :
  detect_format None "report.yaml" = Ok "yaml"
  /\ recognized_format "yaml" = true.
Proof.
  split; [reflexivity|].
  exact (proj1 (detected_format_is_recognized sample_externals module_globals
                  "report.yaml" "yaml" Stdin sample_world eq_refl)).
Defined.

Lemma startswith_app (p rest : string) : startswith (p ++ rest) p = true.
Proof.
  unfold startswith. induction p as [|c p IH].
  - destruct rest; reflexivity.
  - rewrite append_cons. cbn [String.prefix].
    destruct (ascii_dec c c); [exact IH | congruence].
Qed.

(** X3: the format [csv.<dialect>] reaches the tabular loader with exactly
    the text after the first dot as dialect name, headers on, for every
    dialect text (empty, or with further dots); and that text is what
    [partition('.')[-1]] gives back. *)
Theorem dispatch_csv_dialect (E : externals) (G : list string)
    (dialect : string) (fin : stream) (w : world) :
  after_first_dot ("csv." ++ dialect) = dialect
  /\ dispatch E G ("csv." ++ dialect) fin w
     = (global G "load_data_dsv" ;;; load_data_dsv E G fin dialect true) w.
Proof.
  split; [reflexivity|].
  unfold dispatch. rewrite (startswith_app "csv." dialect). reflexivity.
Qed.

(** X4: [load_data] never asks for a table without headers: whatever the
    file name, format and defines, its outcome is the same when the reader
    used for [has_headers=False] is exchanged for any other. *)
Theorem load_data_always_reads_headers (E : externals) (G : list string)
    (alt : string -> string -> result value) (fname fmt : option string)
    (defines : option (list (string * string))) (w : world) :
  load_data (with_headerless_reader E alt) G fname fmt defines w
  = load_data E G fname fmt defines w.
Proof.
  unfold load_data, read_data, detect_and_load, dispatch.
  destruct fname as [fname|]; [|reflexivity].
  unfold bind, try_finally, lift.
  destruct (if String.eqb fname "-" then _ else _) as [[fin|e] w1];
    [|reflexivity].
  destruct (detect_format fmt fname) as [f|e]; [|reflexivity].
  repeat match goal with
         | |- context [if ?c then _ else _] => destruct c; [reflexivity|]
         end.
  reflexivity.
Qed.

End Detection.

(** ** Invariants of monadic code *)

Section Keeps.

Variable I : world -> world -> Prop.
Hypothesis I_refl : forall w, I w w.
Hypothesis I_trans : forall w1 w2 w3, I w1 w2 -> I w2 w3 -> I w1 w3.

Lemma keeps_pure {A} (f : world -> result A) : keeps I (fun w => (f w, w)).
Proof. intros w. apply I_refl. Qed.

Lemma keeps_ret {A} (a : A) : keeps I (ret a).
Proof. intros w. apply I_refl. Qed.

Lemma keeps_raise {A} (e : exn) : keeps I (@raise A e).
Proof. intros w. apply I_refl. Qed.

Lemma keeps_lift {A} (r : result A) : keeps I (lift r).
Proof. intros w. apply I_refl. Qed.

Lemma keeps_global (G : list string) (name : string) :
  keeps I (global G name).
Proof.
  unfold global. destruct (bound G name); [apply keeps_ret | apply keeps_raise].
Qed.

Lemma keeps_bind {A B} (m : M A) (k : A -> M B) :
  keeps I m -> (forall a, keeps I (k a)) -> keeps I (bind m k).
Proof.
  intros Hm Hk w. unfold bind. specialize (Hm w).
  destruct (m w) as [[a|e] w1]; cbn in Hm; [|exact Hm].
  exact (I_trans _ _ _ Hm (Hk a w1)).
Qed.

Lemma keeps_try_finally {A} (body : M A) (cleanup : M unit) :
  keeps I body -> keeps I cleanup -> keeps I (try_finally body cleanup).
Proof.
  intros Hb Hc w. unfold try_finally. specialize (Hb w).
  destruct (body w) as [r w1]; cbn in Hb. specialize (Hc w1).
  destruct (cleanup w1) as [[[]|e] w2]; cbn in Hc |- *;
    exact (I_trans _ _ _ Hb Hc).
Qed.

End Keeps.

(** Walks a monadic body statement by statement, given the invariant's
    reflexivity [Hr], transitivity [Ht] and a tactic for the primitives. *)
Ltac keeps_body Hr Ht prim :=
  repeat first
    [ apply (keeps_bind _ Ht); [|intro]
    | apply (keeps_try_finally _ Ht)
    | apply (keeps_global _ Hr)
    | apply (keeps_ret _ Hr)
    | apply (keeps_raise _ Hr)
    | apply (keeps_lift _ Hr)
    | apply (keeps_pure _ Hr)
    | match goal with
      | |- keeps _ (if ?c then _ else _) => destruct c
      | |- keeps _ (match ?x with _ => _ end) => destruct x
      end
    | prim ].

(** ** The data stream *)

Section DataStream.

Context (E : externals) (G : list string).

Lemma no_stream_events_refl (w : world) : no_stream_events w w.
Proof. exists []. rewrite app_nil_r. auto. Qed.

Lemma no_stream_events_trans (w1 w2 w3 : world) :
  no_stream_events w1 w2 -> no_stream_events w2 w3 ->
  no_stream_events w1 w3.
Proof.
  intros (n1 & H1 & F1) (n2 & H2 & F2). exists (n1 ++ n2)%list. split.
  - rewrite H2, H1, app_assoc. reflexivity.
  - apply Forall_app. auto.
Qed.

Lemma read_all_no_stream_events (fin : stream) :
  keeps no_stream_events (read_all fin).
Proof.
  intros w. destruct fin; cbn; eexists [_]; (split; [reflexivity | auto]).
Qed.

Lemma dispatch_no_stream_events (fmt : string) (fin : stream) :
  keeps no_stream_events (dispatch E G fmt fin).
Proof.
  unfold dispatch, load_data_ini, load_data_json, load_data_xml,
    load_data_yaml, load_data_dsv.
  keeps_body no_stream_events_refl no_stream_events_trans
    ltac:(apply read_all_no_stream_events).
Qed.

Lemma detect_and_load_no_stream_events (fname : string) (fmt : option string)
    (fin : stream) :
  keeps no_stream_events (detect_and_load E G fname fmt fin).
Proof.
  unfold detect_and_load.
  keeps_body no_stream_events_refl no_stream_events_trans
    ltac:(apply dispatch_no_stream_events).
Qed.

(** X5: a data file that opens is closed again on every path: whatever
    the format and whether the loader returns or raises, the run of lines
    154-200 logs the opening first and the close last, with no other
    opening or closing in between.  With ["-"] the stream is [sys.stdin],
    and it is [sys.stdin] that gets closed. *)
Theorem data_stream_always_closed (fname : string) (fmt : option string)
    (w : world) :
  fname <> "-" -> is_Some (w_files w !! fname) ->
  (exists mid : list event,
     w_trace (read_data E G (Some fname) fmt w).2
     = (w_trace w ++ EOpenRead fname :: mid ++ [ECloseIn (FileIn fname)])%list
     /\ Forall (fun e => is_stream_event e = false) mid)
  /\ (bound G "sys" = true ->
      exists mid : list event,
        w_trace (read_data E G (Some "-") fmt w).2
        = (w_trace w ++ mid ++ [ECloseIn Stdin])%list
        /\ Forall (fun e => is_stream_event e = false) mid).
Proof.
  intros Hne [text Hopen]. split.
  - unfold read_data, bind, open_rt, try_finally, close_in, log.
    apply String.eqb_neq in Hne. rewrite Hne, Hopen.
    pose proof (detect_and_load_no_stream_events fname fmt (FileIn fname)
                  (emit (EOpenRead fname) w)) as (mid & Hmid & Hcalm).
    destruct (detect_and_load E G fname fmt (FileIn fname) _) as [r w1].
    cbn in Hmid |- *. exists mid. split; [|exact Hcalm].
    rewrite Hmid, <- !app_assoc. reflexivity.
  - intros Hsys.
    unfold read_data, bind, try_finally, close_in, log.
    cbn [String.eqb Ascii.eqb Bool.eqb]. rewrite (global_bound _ _ _ Hsys).
    cbn [ret].
    pose proof (detect_and_load_no_stream_events "-" fmt Stdin w)
      as (mid & Hmid & Hcalm).
    destruct (detect_and_load E G "-" fmt Stdin w) as [r w1].
    cbn in Hmid |- *. exists mid. split; [|exact Hcalm].
    rewrite Hmid, <- !app_assoc. reflexivity.
Qed.

End DataStream.

Lemma data_stream_always_closed_witness :
  "d.json" <> "-" /\ is_Some (w_files sample_world !! "d.json")
  /\ exists mid : list event,
       w_trace (read_data sample_externals module_globals (Some "d.json")
                  None sample_world).2
       = (w_trace sample_world
          ++ EOpenRead "d.json" :: mid ++ [ECloseIn (FileIn "d.json")])%list
       /\ Forall (fun e => is_stream_event e = false) mid.
Proof.
  assert (H1 : "d.json" <> "-") by discriminate.
  assert (H2 : is_Some (w_files sample_world !! "d.json"))
    by (exists "{}"; reflexivity).
  split; [exact H1|]. split; [exact H2|].
  exact (proj1 (data_stream_always_closed sample_externals module_globals
                  "d.json" None sample_world H1 H2)).
Defined.


(** ** Loading as the module stands *)

Section AsWritten.

Context (E : externals).

(** X6: a data file that cannot be opened fails the run before any format
    is looked at: whatever format is given, valid or not, and whatever the
    suffix, [load_data] raises the error of [open], logs nothing and
    changes nothing. *)
Theorem unopenable_file_raises_first (G : list string) (fname : string)
    (fmt : option string) (defines : option (list (string * string)))
    (w : world) :
  fname <> "-" -> w_files w !! fname = None ->
  read_data E G (Some fname) fmt w = (Raise (OSError fname), w)
  /\ load_data E G (Some fname) fmt defines w = (Raise (OSError fname), w).
Proof.
  intros Hne Hnone.
  assert (Hread : read_data E G (Some fname) fmt w
                  = (Raise (OSError fname), w)).
  { unfold read_data, bind, open_rt. apply String.eqb_neq in Hne.
    rewrite Hne, Hnone. reflexivity. }
  split; [exact Hread|].
  unfold load_data, bind. rewrite Hread. reflexivity.
Qed.

Lemma tabular_dispatch_raises (fmt : string) (fin : stream) (w : world) :
  tabular_format fmt = true ->
  dispatch E module_globals fmt fin w = (Raise (NameError "csv"), w).
Proof.
  unfold tabular_format. intros H.
  apply orb_true_iff in H as [H|H]; [apply orb_true_iff in H as [H|H]|].
  - apply String.eqb_eq in H as ->. reflexivity.
  - apply String.eqb_eq in H as ->. reflexivity.
  - unfold dispatch.
    repeat match goal with
           | |- context [String.eqb fmt ?s] =>
               destruct (String.eqb_spec fmt s) as [->|_];
               [discriminate H || reflexivity|]
           end.
    rewrite H. reflexivity.
Qed.

(** X7: as the module stands no tabular data can be loaded through
    [load_data]: for [tsv], [csv] and every [csv.<dialect>], given
    explicitly, and for every file named [*.tsv] or [*.csv], the loading
    stage raises [NameError] for [csv]; a file that was opened is closed
    again and nothing of it is read. *)
Theorem tabular_data_never_loads (fmt fname name : string) (fin : stream)
    (w : world) :
  tabular_format fmt = true ->
  detect_and_load E module_globals fname (Some fmt) fin w
  = (Raise (NameError "csv"), w)
  /\ detect_and_load E module_globals (name ++ ".tsv") None fin w
     = (Raise (NameError "csv"), w)
  /\ detect_and_load E module_globals (name ++ ".csv") None fin w
     = (Raise (NameError "csv"), w)
  /\ (fname <> "-" -> is_Some (w_files w !! fname) ->
      read_data E module_globals (Some fname) (Some fmt) w
      = (Raise (NameError "csv"),
         emit (ECloseIn (FileIn fname)) (emit (EOpenRead fname) w))).
Proof.
  intros H. split; [|split; [|split]].
  - unfold detect_and_load, bind, lift. cbn [detect_format].
    apply tabular_dispatch_raises, H.
  - unfold detect_and_load, bind, lift. rewrite detect_tsv. reflexivity.
  - unfold detect_and_load, bind, lift. rewrite detect_csv. reflexivity.
  - intros Hne [text Hopen].
    unfold read_data, try_finally, detect_and_load, bind, lift, open_rt.
    apply String.eqb_neq in Hne. rewrite Hne, Hopen. cbn [detect_format].
    rewrite tabular_dispatch_raises by exact H. reflexivity.
Qed.

(** X8: as the module stands [load_data] returns for no arguments at all:
    it ends in the error of the loading stage or, when that stage
    succeeds, in [NameError] for [collections].  The defines are never
    looked at: the outcome is the same for any two lists of defines. *)
Theorem load_data_never_returns (fname fmt : option string)
    (defines defines' : option (list (string * string))) (w : world) :
  load_data E module_globals fname fmt defines w
  = match read_data E module_globals fname fmt w with
    | (Ok _, w1) => (Raise (NameError "collections"), w1)
    | (Raise e, w1) => (Raise e, w1)
    end
  /\ load_data E module_globals fname fmt defines w
     = load_data E module_globals fname fmt defines' w
  /\ exists (e : exn) (w' : world),
       load_data E module_globals fname fmt defines w = (Raise e, w').
Proof.
  unfold load_data, bind.
  destruct (read_data E module_globals fname fmt w) as [[v|e] w1];
    repeat split; eauto.
Qed.


End AsWritten.

Lemma unopenable_file_raises_first_witness :
  "missing.txt" <> "-" /\ w_files sample_world !! "missing.txt" = None
  /\ load_data sample_externals module_globals (Some "missing.txt")
       (Some "frobnicate") None sample_world
     = (Raise (OSError "missing.txt"), sample_world).
Proof.
  assert (H1 : "missing.txt" <> "-") by discriminate.
  split; [exact H1|]. split; [reflexivity|].
  exact (proj2 (unopenable_file_raises_first sample_externals module_globals
                  "missing.txt" (Some "frobnicate") None sample_world
                  H1 eq_refl)).
Defined.

Lemma tabular_data_never_loads_witness :
  tabular_format "csv.excel-tab" = true
  /\ detect_and_load sample_externals module_globals "d.json"
       (Some "csv.excel-tab") (FileIn "d.json") sample_world
     = (Raise (NameError "csv"), sample_world).
Proof.
  split; [reflexivity|].
  exact (proj1 (tabular_data_never_loads sample_externals "csv.excel-tab"
                  "d.json" "d" (FileIn "d.json") sample_world eq_refl)).
Defined.

(** ** Standard input *)

Section StandardInput.

Context (E : externals) (G : list string).

Lemma stdin_unread_refl (w : world) : stdin_unread w w.
Proof. reflexivity. Qed.

Lemma stdin_unread_trans (w1 w2 w3 : world) :
  stdin_unread w1 w2 -> stdin_unread w2 w3 -> stdin_unread w1 w3.
Proof. unfold stdin_unread. congruence. Qed.

Lemma read_file_stdin_unread (p : string) :
  keeps stdin_unread (read_all (FileIn p)).
Proof. intros w. reflexivity. Qed.

Lemma log_stdin_unread (e : event) : keeps stdin_unread (log e).
Proof. intros w. reflexivity. Qed.

Lemma detect_and_load_file_stdin_unread (fname p : string)
    (fmt : option string) :
  keeps stdin_unread (detect_and_load E G fname fmt (FileIn p)).
Proof.
  unfold detect_and_load, dispatch, load_data_ini, load_data_json,
    load_data_xml, load_data_yaml, load_data_dsv.
  keeps_body stdin_unread_refl stdin_unread_trans
    ltac:(apply read_file_stdin_unread).
Qed.

Lemma read_data_stdin_unread (fname fmt : option string) :
  fname <> Some "-" -> keeps stdin_unread (read_data E G fname fmt).
Proof.
  intros Hne. destruct fname as [fname|]; [|intros w; reflexivity].
  assert (Hdash : String.eqb fname "-" = false)
    by (apply String.eqb_neq; congruence).
  unfold read_data. rewrite Hdash. intros w. unfold bind, open_rt.
  destruct (w_files w !! fname); [|reflexivity].
  apply (keeps_try_finally _ stdin_unread_trans
           (detect_and_load E G fname fmt (FileIn fname))
           (close_in (FileIn fname))
           (detect_and_load_file_stdin_unread fname fname fmt)
           (log_stdin_unread _) (emit (EOpenRead fname) w)).
Qed.

(** X10: standard input is read for data only when asked for: with no
    data file, or one whose name is not ["-"], [load_data] leaves
    whatever is on standard input unread, whether it returns or raises. *)
Theorem load_data_reads_stdin_only_for_dash (fname fmt : option string)
    (defines : option (list (string * string))) (w : world) :
  fname <> Some "-" ->
  w_stdin (load_data E G fname fmt defines w).2 = w_stdin w.
Proof.
  intros Hne. revert w. change (keeps stdin_unread
                                  (load_data E G fname fmt defines)).
  unfold load_data, normalize.
  keeps_body stdin_unread_refl stdin_unread_trans
    ltac:(first [ apply read_data_stdin_unread; exact Hne
                | apply log_stdin_unread ]).
Qed.

(** X11: a template taken from standard input uses all of it: once the
    template is loaded that way, standard input is empty, so a data file
    given as ["-"] in the same run hands the empty text to its parser. *)
Theorem template_from_stdin_leaves_no_data (t : option string)
    (tpl : template E) (w w1 : world) :
  none_or_dash t = true ->
  load_template E G t w = (Ok tpl, w1) ->
  w_stdin w1 = ""
  /\ (load_data_json E module_globals Stdin w1).1 = json_load E ""
  /\ (load_data_yaml E module_globals Stdin w1).1 = yaml_safe_load E ""
  /\ (load_data_xml E module_globals Stdin w1).1 = xmltodict_parse E ""
  /\ (load_data_ini E module_globals Stdin w1).1
     = rbind (configparser_read_file E "") (ini_dict E).
Proof.
  intros Ht Hload.
  assert (Hempty : w_stdin w1 = "").
  { unfold load_template in Hload. rewrite Ht in Hload.
    unfold bind, global, read_all, lift in Hload.
    repeat match type of Hload with
           | context [bound G ?n] => destruct (bound G n)
           end; cbn in Hload; try discriminate Hload.
    injection Hload as _ <-. reflexivity. }
  split; [exact Hempty|].
  rewrite load_data_ini_run by reflexivity. cbn [stream_text fst].
  rewrite <- Hempty. repeat split.
Qed.

End StandardInput.

Lemma load_data_reads_stdin_only_for_dash_witness :
  Some "d.json" <> Some "-"
  /\ w_stdin (load_data sample_externals module_globals (Some "d.json")
                None None sample_world).2 = "Hello ".
Proof.
  assert (H : Some "d.json" <> Some "-") by discriminate.
  split; [exact H|].
  exact (load_data_reads_stdin_only_for_dash sample_externals
           module_globals (Some "d.json") None None sample_world H).
Defined.

Lemma template_from_stdin_leaves_no_data_witness :
  none_or_dash None = true
  /\ load_template sample_externals module_globals None sample_world
     = (Ok "Hello ",
        emit (EReadAll Stdin)
          (mkWorld "" (w_files sample_world) [] "" []))
  /\ (load_data_json sample_externals module_globals Stdin
        (emit (EReadAll Stdin)
           (mkWorld "" (w_files sample_world) [] "" []))).1
     = json_load sample_externals "".
Proof.
  split; [reflexivity|]. split; [reflexivity|].
  exact (proj1 (proj2
    (template_from_stdin_leaves_no_data sample_externals module_globals
       None "Hello "%string sample_world _ eq_refl eq_refl))).
Defined.

(** ** Writing the output *)

Section Output.

Variable G : list string.

Lemma write_output_file_run (p text : string) (w : world) :
  p <> "-" -> existsb (String.eqb p) (w_locked w) = false ->
  write_output G (Some p) text w
  = (Ok tt,
     mkWorld (w_stdin w) (<[p := text]> (w_files w)) (w_locked w)
       (w_stdout w)
       (w_trace w ++ [EOpenWrite p; EWrite (FileOut p) text;
                      ECloseOut (FileOut p)])%list).
Proof.
  intros Hne Hfree. apply String.eqb_neq in Hne.
  unfold write_output, open_output, none_or_dash, bind, try_finally,
    open_wt, write, close_out, log, emit.
  rewrite Hne. change (default "" (Some p)) with p. rewrite Hfree. cbn.
  rewrite lookup_insert_eq, insert_insert_eq, <- !app_assoc. reflexivity.
Qed.

(** X12: writing to a named file replaces the file: when the destination
    opens, it holds exactly the rendered text afterwards, whatever it held
    before, every other file and standard output are as they were, and the
    file is opened, written once and closed; when it does not open, the
    error of [open] is raised and nothing has changed. *)
Theorem write_output_replaces_file (p text : string) (w : world) :
  p <> "-" ->
  if existsb (String.eqb p) (w_locked w)
  then write_output G (Some p) text w = (Raise (OSError p), w)
  else (write_output G (Some p) text w).1 = Ok tt
       /\ w_files (write_output G (Some p) text w).2 !! p = Some text
       /\ (forall q, q <> p ->
             w_files (write_output G (Some p) text w).2 !! q
             = w_files w !! q)
       /\ w_stdout (write_output G (Some p) text w).2 = w_stdout w
       /\ w_trace (write_output G (Some p) text w).2
          = (w_trace w ++ [EOpenWrite p; EWrite (FileOut p) text;
                           ECloseOut (FileOut p)])%list.
Proof.
  intros Hne. destruct (existsb (String.eqb p) (w_locked w)) eqn:Hlock.
  - apply String.eqb_neq in Hne.
    unfold write_output, open_output, none_or_dash, bind, open_wt.
    rewrite Hne. change (default "" (Some p)) with p.
    rewrite Hlock. reflexivity.
  - rewrite (write_output_file_run p text w Hne Hlock). cbn.
    split; [reflexivity|]. split; [apply lookup_insert_eq|].
    split; [|split; reflexivity].
    intros q Hq. apply lookup_insert_ne. congruence.
Qed.

(** X13: with the output left out or given as ["-"] the text is appended
    to standard output, which is then closed; no file is touched.  Both
    spellings behave alike. *)
Theorem write_output_to_stdout (o : option string) (text : string)
    (w : world) :
  none_or_dash o = true -> bound G "sys" = true ->
  write_output G o text w = write_output G None text w
  /\ write_output G o text w
     = (Ok tt,
        mkWorld (w_stdin w) (w_files w) (w_locked w) (w_stdout w ++ text)
          (w_trace w ++ [EWrite Stdout text; ECloseOut Stdout])%list).
Proof.
  intros Ho Hsys.
  unfold write_output, open_output, bind, try_finally, write, close_out,
    log, emit.
  rewrite Ho. cbn [none_or_dash]. rewrite (global_bound _ _ _ Hsys). cbn.
  rewrite <- !app_assoc. split; reflexivity.
Qed.


End Output.

Lemma write_output_replaces_file_witness :
  "d.json" <> "-"
  /\ w_files (write_output module_globals (Some "d.json") "new"
                sample_world).2 !! "d.json" = Some "new".
Proof.
  assert (H : "d.json" <> "-") by discriminate.
  split; [exact H|].
  exact (proj1 (proj2
    (write_output_replaces_file module_globals "d.json" "new"
       sample_world H))).
Defined.

Lemma write_output_to_stdout_witness :
  none_or_dash (Some "-") = true /\ bound module_globals "sys" = true
  /\ w_stdout (write_output module_globals (Some "-") "out"
                 sample_world).2 = "out".
Proof.
  split; [reflexivity|]. split; [reflexivity|].
  rewrite (proj2 (write_output_to_stdout module_globals (Some "-") "out"
                    sample_world eq_refl eq_refl)).
  reflexivity.
Defined.


(** ** More on the merge of defines *)

Section MergeAlgebra.

Implicit Types (base : gmap string value) (ds : list (string * string)).

Lemma dom_merge base ds :
  dom (merge base (Some ds)) = dom base ∪ list_to_set ds.*1.
Proof.
  induction ds as [|[k v] ds IH] using rev_ind.
  - cbn. rewrite union_empty_r_L. reflexivity.
  - unfold merge in *. rewrite map_app. cbn [map fst snd].
    rewrite dict_update_snoc, dom_insert_L, IH.
    rewrite fmap_app, list_to_set_app_L. cbn [fmap list_fmap fst].
    apply set_eq. intros x.
    rewrite !elem_of_union, list_to_set_singleton, elem_of_singleton.
    tauto.
Qed.

(** X15: defines only ever add or replace top-level keys.  A key no define
    names keeps what the data had; the keys afterwards are those of the
    data and of the defines; every defined key holds a string; merging in
    two steps is merging the concatenated defines; and merging the same
    defines a second time changes nothing. *)
Theorem merge_adds_or_replaces base (ds ds' : list (string * string))
    (k : string) :
  (~ In k ds.*1 -> merge base (Some ds) !! k = base !! k)
  /\ (In k ds.*1 -> exists v : string, merge base (Some ds) !! k = Some (VStr v))
  /\ dom (merge base (Some ds)) = dom base ∪ list_to_set ds.*1
  /\ merge (merge base (Some ds)) (Some ds') = merge base (Some (ds ++ ds')%list)
  /\ merge (merge base (Some ds)) (Some ds) = merge base (Some ds).
Proof.
  split; [|split; [|split; [|split]]].
  - intros Hk. rewrite lookup_merge, assoc_rev_None; [reflexivity|].
    apply assoc_None_keys, Hk.
  - intros Hk. rewrite lookup_merge.
    destruct (assoc k (rev ds)) as [v|] eqn:Ha; [eauto|].
    exfalso. apply assoc_None_keys in Ha. apply Ha.
    apply assoc_is_Some_keys in Hk as [v Hv].
    apply assoc_Some_In, in_rev in Hv. exact (In_keys _ _ _ Hv).
  - apply dom_merge.
  - unfold merge, dict_update. rewrite map_app, foldl_app. reflexivity.
  - apply map_eq. intros key. rewrite !lookup_merge.
    destruct (assoc key (rev ds)); reflexivity.
Qed.

End MergeAlgebra.

Section LoadResult.

Context (E : externals) (G : list string).


End LoadResult.


(** ** What the parsers return is what the loading stage returns *)

Section Parsers.

Context (E : externals).

Lemma rmapM_fails {A B} (f : A -> result B) (l : list A) (a : A) (e : exn) :
  In a l -> f a = Raise e -> exists e', rmapM f l = Raise e'.
Proof.
  induction l as [|b l IH]; cbn [In rmapM]; [tauto|].
  intros [->|Hin] Hf.
  - rewrite Hf. cbn. eauto.
  - destruct (f b); cbn; [|eauto].
    destruct (IH Hin Hf) as [e' ->]. cbn. eauto.
Qed.

(** X17: the ini loader gives no partial result: if a single value of a
    single section fails to interpolate, the whole load raises and no
    section is returned, the healthy ones included. *)
Theorem ini_bad_value_fails_whole_load (cp : ConfigParser) (s k raw : string)
    (own : list (string * string)) (e : exn) (fin : stream) (w : world) :
  assoc s (cp_sections cp) = Some own ->
  overlay cp own k = Some raw ->
  before_get E (own ++ cp_defaults cp)%list raw = Raise e ->
  (exists e', ini_dict E cp = Raise e')
  /\ (configparser_read_file E (stream_text fin w) = Ok cp ->
      exists e', (load_data_ini E module_globals fin w).1 = Raise e').
Proof.
  intros Hs Ho Hraw.
  assert (Hsec : exists e1, ini_section E cp s = Raise e1).
  { unfold ini_section, cp_items. rewrite Hs.
    destruct (rmapM_fails
                (fun k => rbind (cp_get E cp own k) (fun v => Ok (k, v)))
                (cp_options cp own) k e) as [e1 ->]; [| |cbn; eauto].
    - apply in_cp_options. rewrite Ho. eauto.
    - rewrite cp_get_overlay, Ho, Hraw. reflexivity. }
  destruct Hsec as [e1 Hsec].
  assert (Hdict : exists e', ini_dict E cp = Raise e').
  { unfold ini_dict.
    destruct (rmapM_fails
                (fun s => rbind (ini_section E cp s)
                            (fun d => Ok (s, VDict (VStr <$> d))))
                (cp_section_names cp) s e1) as [e' ->]; [| |cbn; eauto].
    - apply assoc_is_Some_keys. rewrite Hs. eauto.
    - rewrite Hsec. reflexivity. }
  split; [exact Hdict|].
  intros Hcp. rewrite load_data_ini_run by reflexivity.
  rewrite Hcp. exact Hdict.
Qed.

(** X18: for json, xml and yaml the loading stage is the library's
    parser applied to the whole text of the file: its value or its error
    comes back unchanged, never an empty result in place of an error, and
    the file is read once and closed either way. *)
Theorem parser_outcome_is_passed_on (fname text : string) (w : world) :
  fname <> "-" -> w_files w !! fname = Some text ->
  let closed :=
    emit (ECloseIn (FileIn fname))
      (emit (EReadAll (FileIn fname)) (emit (EOpenRead fname) w)) in
  read_data E module_globals (Some fname) (Some "json") w
  = (json_load E text, closed)
  /\ read_data E module_globals (Some fname) (Some "xml") w
     = (xmltodict_parse E text, closed)
  /\ read_data E module_globals (Some fname) (Some "yaml") w
     = (yaml_safe_load E text, closed)
  /\ read_data E module_globals (Some fname) (Some "ini") w
     = (rbind (configparser_read_file E text) (ini_dict E), closed).
Proof.
  intros Hne Hopen closed. subst closed. apply String.eqb_neq in Hne.
  unfold read_data, try_finally, detect_and_load, dispatch, bind, lift,
    open_rt, close_in, log.
  rewrite Hne, Hopen. cbn [detect_format String.eqb Ascii.eqb Bool.eqb].
  unfold load_data_json, load_data_xml, load_data_yaml, load_data_ini,
    bind, lift, read_all.
  rewrite !global_bound by reflexivity. cbn [emit w_files].
  rewrite Hopen. cbn [default from_option id].
  repeat split;
    match goal with
    | |- context [match ?r with _ => _ end] => destruct r; reflexivity
    end.
Qed.

End Parsers.

Lemma ini_bad_value_fails_whole_load_witness :
  let cp := mkConfigParser [] [("ok", [("a", "1")]); ("bad", [("k", "%(x)s")])]
  in
  assoc "bad" (cp_sections cp) = Some [("k", "%(x)s")]
  /\ overlay cp [("k", "%(x)s")] "k" = Some "%(x)s"
  /\ exists e', ini_dict sample_externals cp = Raise e'.
Proof.
  intros cp. split; [reflexivity|]. split; [reflexivity|].
  exact (proj1 (ini_bad_value_fails_whole_load sample_externals cp "bad" "k"
                  "%(x)s" [("k", "%(x)s")]
                  (LibraryError "configparser" "InterpolationSyntaxError")
                  Stdin sample_world eq_refl eq_refl eq_refl)).
Defined.

Lemma parser_outcome_is_passed_on_witness :
  "d.json" <> "-" /\ w_files sample_world !! "d.json" = Some "{}"
  /\ (read_data sample_externals module_globals (Some "d.json")
        (Some "yaml") sample_world).1
     = Raise (LibraryError "yaml" "YAMLError").
Proof.
  assert (H : "d.json" <> "-") by discriminate.
  split; [exact H|]. split; [reflexivity|].
  rewrite (proj1 (proj2 (proj2
    (parser_outcome_is_passed_on sample_externals "d.json" "{}" sample_world
       H eq_refl)))).
  reflexivity.
Defined.
